(** * terminalScript: interactive git wrappers (res, stash, bd, ck, c, p, b, l, push)

    A shallow embedding of the scripts under [scripts/]: every script is a
    computation in a small monad that threads the state of the shell
    (the git repository, reached only through [execSync] / [spawnSync]),
    consumes the operator's answers to the Enquirer prompts and records
    what the process did (commands run, lines printed, prompts rendered). *)

From Stdlib Require Import String Ascii List ZArith Bool Lia DecimalString.
Import ListNotations.
Open Scope string_scope.

(* ================================================================== *)
(** ** JavaScript strings and numbers, as far as the scripts use them  *)
(* ================================================================== *)

Module Js.

Definition chr (n : nat) : string := String (ascii_of_nat n) EmptyString.

Definition nl  : string := chr 10.   (* '\n' *)
Definition tab : string := chr 9.    (* '\t' *)
Definition dq  : string := chr 34.   (* the double quote character *)

Definition LF : ascii := ascii_of_nat 10.
Definition CR : ascii := ascii_of_nat 13.

Definition bytes (l : list nat) : string :=
  string_of_list_ascii (map ascii_of_nat l).

Fixpoint drop (n : nat) (s : string) : string :=
  match n, s with
  | S n', String _ r => drop n' r
  | _, _ => s
  end.

Fixpoint rev_onto (s acc : string) : string :=
  match s with
  | EmptyString => acc
  | String c r => rev_onto r (String c acc)
  end.

Definition rev (s : string) : string := rev_onto s EmptyString.

Definition startsWith (s p : string) : bool := String.prefix p s.

Definition endsWith (s p : string) : bool := String.prefix (rev p) (rev s).

(** [s.includes(p)] *)
Fixpoint includes (s p : string) : bool :=
  String.prefix p s ||
  match s with
  | EmptyString => false
  | String _ r => includes r p
  end.

(** The code points of [WhiteSpace] and [LineTerminator], UTF-8 encoded:
    TAB LF VT FF CR SP, U+00A0, U+1680, U+2000..U+200A, U+2028, U+2029,
    U+202F, U+205F, U+3000, U+FEFF.  They are what [trim], the regular
    expression class [\s] and [parseInt] skip. *)
Definition ws_ascii (c : ascii) : bool :=
  let n := nat_of_ascii c in
  (Nat.leb 9 n && Nat.leb n 13) || Nat.eqb n 32.

Definition ws_wide : list string :=
  [ bytes [194;160]; bytes [225;154;128];
    bytes [226;128;128]; bytes [226;128;129]; bytes [226;128;130];
    bytes [226;128;131]; bytes [226;128;132]; bytes [226;128;133];
    bytes [226;128;134]; bytes [226;128;135]; bytes [226;128;136];
    bytes [226;128;137]; bytes [226;128;138];
    bytes [226;128;168]; bytes [226;128;169]; bytes [226;128;175];
    bytes [226;129;159]; bytes [227;128;128]; bytes [239;187;191] ].

(** Number of bytes of the white space code point [s] starts with
    ([0] when it starts with none); [pats] are the multi-byte ones. *)
Definition ws_len (pats : list string) (s : string) : nat :=
  match s with
  | EmptyString => 0
  | String c _ =>
      if ws_ascii c then 1
      else match find (fun p => String.prefix p s) pats with
           | Some p => String.length p
           | None => 0
           end
  end.

Fixpoint strip_ws (pats : list string) (fuel : nat) (s : string) : string :=
  match fuel with
  | O => s
  | S f =>
      match ws_len pats s with
      | O => s
      | n => strip_ws pats f (drop n s)
      end
  end.

Definition trimStart (s : string) : string :=
  strip_ws ws_wide (String.length s) s.

Definition trimEnd (s : string) : string :=
  rev (strip_ws (map rev ws_wide) (String.length s) (rev s)).

(** [s.trim()] *)
Definition trim (s : string) : string := trimEnd (trimStart s).

(** [s.split(c)] for a one-character separator: never the empty list. *)
Fixpoint split (sep : ascii) (s : string) : list string :=
  match s with
  | EmptyString => [EmptyString]
  | String c r =>
      if Ascii.eqb c sep then EmptyString :: split sep r
      else match split sep r with
           | h :: t => String c h :: t
           | [] => [String c EmptyString]
           end
  end.

(** [s.split(/\r?\n/)] *)
Fixpoint split_crlf (s : string) : list string :=
  match s with
  | EmptyString => [EmptyString]
  | String c r =>
      let cons_head :=
        match split_crlf r with
        | h :: t => String c h :: t
        | [] => [String c EmptyString]
        end in
      if Ascii.eqb c LF then EmptyString :: split_crlf r
      else if Ascii.eqb c CR then
        match r with
        | String c' r' =>
            if Ascii.eqb c' LF then EmptyString :: split_crlf r' else cons_head
        | EmptyString => cons_head
        end
      else cons_head
  end.

(** [Boolean(s)] on a string: the empty string is the only falsy one. *)
Definition truthy (s : string) : bool :=
  match s with EmptyString => false | _ => true end.

(** [a || b] on strings. *)
Definition or_else (a b : string) : string := if truthy a then a else b.

(** [s.replace(p, '')] with a string pattern: the first occurrence goes. *)
Fixpoint remove_first (p s : string) : string :=
  if String.prefix p s then drop (String.length p) s
  else match s with
       | EmptyString => EmptyString
       | String c r => String c (remove_first p r)
       end.

(** [l.replace(/\r$/, '')] *)
Fixpoint strip_cr_end (s : string) : string :=
  match s with
  | EmptyString => EmptyString
  | String c r =>
      match r with
      | EmptyString => if Ascii.eqb c CR then EmptyString else s
      | _ => String c (strip_cr_end r)
      end
  end.

(** [l.replace(/^[\*\s]+/, '')] *)
Fixpoint strip_star_ws (fuel : nat) (s : string) : string :=
  match fuel with
  | O => s
  | S f =>
      match s with
      | String c r =>
          if Ascii.eqb c "*"%char then strip_star_ws f r
          else match ws_len ws_wide s with
               | O => s
               | n => strip_star_ws f (drop n s)
               end
      | EmptyString => s
      end
  end.

Definition strip_branch_marks (s : string) : string :=
  strip_star_ws (String.length s) s.

(** A value that may be [undefined] (a destructured field that is not
    there); in a template literal and as a process argument it reads
    [undefined]. *)
Definition str (o : option string) : string :=
  match o with Some s => s | None => "undefined" end.

(** [s.length]: UTF-16 code units of UTF-8 encoded text; a code point
    outside the basic plane (a four-byte sequence) takes two. *)
Definition units (c : ascii) : nat :=
  let n := nat_of_ascii c in
  if Nat.ltb n 128 then 1
  else if Nat.ltb n 192 then 0
  else if Nat.ltb n 240 then 1
  else 2.

Fixpoint length (s : string) : nat :=
  match s with
  | EmptyString => 0
  | String c r => units c + length r
  end.

(** Numbers.  The scripts only produce integers (counts, lengths),
    [NaN] and, from an absurdly long digit string, an infinity.  A
    finite number is kept as the integer the double holds; zero has no
    sign here ([-0] prints and compares as [0]). *)
Inductive num : Type :=
| NaN
| Fin (z : Z)
| Inf (negative : bool).

(** The double nearest to a non-negative integer, ties to even. *)
Definition nearest (z : Z) : Z :=
  let e := (Z.log2 z + 1 - 53)%Z in
  if (e <=? 0)%Z then z
  else
    let q := Z.shiftr z e in
    let r := (z - Z.shiftl q e)%Z in
    let h := Z.shiftl 1 (e - 1) in
    let q' := if (h <? r)%Z || ((r =? h)%Z && Z.odd q) then (q + 1)%Z else q in
    Z.shiftl q' e.

(** The Number value of a sign and a magnitude. *)
Definition number (neg : bool) (z : Z) : num :=
  let d := nearest z in
  if (Z.shiftl 1 1024 <=? d)%Z then Inf neg
  else Fin (if neg then (- d)%Z else d).

Definition digit_val (hex : bool) (c : ascii) : option Z :=
  let n := Z.of_nat (nat_of_ascii c) in
  if (48 <=? n)%Z && (n <=? 57)%Z then Some (n - 48)%Z
  else if hex && (97 <=? n)%Z && (n <=? 102)%Z then Some (n - 87)%Z
  else if hex && (65 <=? n)%Z && (n <=? 70)%Z then Some (n - 55)%Z
  else None.

(** Longest prefix of digits, read in the radix; [None] when empty. *)
Fixpoint digits (hex : bool) (s : string) (acc : option Z) : option Z :=
  match s with
  | EmptyString => acc
  | String c r =>
      match digit_val hex c with
      | Some d =>
          let radix := if hex then 16%Z else 10%Z in
          digits hex r
            (Some (match acc with Some a => a * radix + d | None => d end)%Z)
      | None => acc
      end
  end.

(** [parseInt(s)] with no radix argument. *)
Definition parseInt (s : string) : num :=
  let s := trimStart s in
  let '(neg, s) :=
    match s with
    | String "-"%char r => (true, r)
    | String "+"%char r => (false, r)
    | _ => (false, s)
    end in
  let v :=
    if String.prefix "0x" s || String.prefix "0X" s
    then digits true (drop 2 s) None
    else digits false s None in
  match v with
  | Some z => number neg z
  | None => NaN
  end.

Definition decimal (z : Z) : string := NilZero.string_of_int (Z.to_int z).

(** The shortest decimal that reads back as the double [z]: the
    integer with the fewest significant digits that rounds to [z], the
    closest one when there are two, the even one on a tie. *)
Fixpoint shortest_from (z : Z) (n0 : nat) (k : nat) (tries : nat) : Z :=
  match tries with
  | O => z
  | S tries' =>
      let p := (10 ^ Z.of_nat (n0 - k))%Z in
      let d := (z / p)%Z in
      let lo := (d * p)%Z in
      let hi := ((d + 1) * p)%Z in
      let lo_ok := (nearest lo =? z)%Z in
      let hi_ok := (nearest hi =? z)%Z in
      if lo_ok && hi_ok then
        if (z - lo <? hi - z)%Z then lo
        else if (hi - z <? z - lo)%Z then hi
        else if Z.even d then lo else hi
      else if lo_ok then lo
      else if hi_ok then hi
      else shortest_from z n0 (S k) tries'
  end.

Definition shortest (z : Z) : Z :=
  let n0 := String.length (decimal z) in
  shortest_from z n0 1 (Nat.min n0 17).

Fixpoint strip_zeros_end (s : string) : string :=
  match s with
  | EmptyString => EmptyString
  | String c r =>
      match strip_zeros_end r with
      | EmptyString => if Ascii.eqb c "0"%char then EmptyString else String c EmptyString
      | r' => String c r'
      end
  end.

(** Number::toString of a positive integer-valued double. *)
Definition show_positive (z : Z) : string :=
  let v := shortest z in
  let ds := decimal v in
  let n := String.length ds in
  if Nat.leb n 21 then ds
  else
    match strip_zeros_end ds with
    | String c EmptyString =>
        String c EmptyString ++ "e+" ++ decimal (Z.of_nat (n - 1))
    | String c r =>
        String c EmptyString ++ "." ++ r ++ "e+" ++ decimal (Z.of_nat (n - 1))
    | EmptyString => ds
    end.

(** [`${n}`] *)
Definition show (n : num) : string :=
  match n with
  | NaN => "NaN"
  | Inf false => "Infinity"
  | Inf true => "-Infinity"
  | Fin z =>
      if (z =? 0)%Z then "0"
      else if (z <? 0)%Z then "-" ++ show_positive (- z)
      else show_positive z
  end.

(** [`${n}`] for an array length or an index, which stay below [2^32]. *)
Definition show_nat (n : nat) : string := decimal (Z.of_nat n).

(** [a < b] and [a === b] on numbers: nothing compares with [NaN]. *)
Definition lt (a b : num) : bool :=
  match a, b with
  | Fin x, Fin y => (x <? y)%Z
  | Inf true, Fin _ => true
  | Inf true, Inf false => true
  | Fin _, Inf false => true
  | _, _ => false
  end.

Definition eq (a b : num) : bool :=
  match a, b with
  | Fin x, Fin y => (x =? y)%Z
  | Inf s, Inf t => Bool.eqb s t
  | _, _ => false
  end.

(** [n || 0]: [NaN] and [0] are the falsy numbers. *)
Definition or_zero (n : num) : num :=
  match n with NaN => Fin 0 | _ => n end.

(** [s.repeat(n)] *)
Fixpoint repeat (s : string) (n : nat) : string :=
  match n with O => EmptyString | S k => s ++ repeat s k end.

(** [s.padStart(n, ' ')] and [s.padEnd(n)] *)
Definition padStart (s : string) (n : nat) : string :=
  repeat " " (n - length s) ++ s.

Definition padEnd (s : string) (n : nat) : string :=
  s ++ repeat " " (n - length s).

(** [a.filter(Boolean)] on an array of strings. *)
Definition nonempty (l : list string) : list string := filter truthy l.

(** [a.includes(x)] on an array of strings. *)
Definition mem (x : string) (l : list string) : bool :=
  existsb (String.eqb x) l.

(** [[...new Set(a)]]: first occurrences, in order. *)
Fixpoint uniq (l : list string) : list string :=
  match l with
  | [] => []
  | x :: r => x :: filter (fun y => negb (String.eqb x y)) (uniq r)
  end.

End Js.

(* ================================================================== *)
(** ** The Shell Executor, the operator and the process               *)
(* ================================================================== *)

(** How a child started with [spawnSync] is attached to the terminal:
    [stdio: 'pipe'] (also the default) keeps what it writes for the
    caller, [stdio: 'inherit'] lets it write to the terminal itself. *)
Inductive Stdio : Type := Pipe | Inherit.

(** [execSync(line)] runs a line through the shell, keeps its stdout
    and passes its stderr on to the terminal; [spawnSync(file, args,
    { stdio })] runs a program directly; [spawnSync(file, args,
    { input })] feeds it text. *)
Inductive Cmd : Type :=
| ExecSync (line : string)
| SpawnSync (file : string) (args : list string) (stdio : Stdio)
| SpawnInput (file : string) (args : list string) (input : string).

(** What a finished child process leaves behind; [status] is [null]
    ([None]) when the child was killed or could not be started. *)
Record Completed : Type := mkCompleted {
  status : option Z;
  stdout : string;
  stderr : string
}.

Definition succeeded (r : Completed) : bool :=
  match status r with Some 0%Z => true | _ => false end.

(** The machine the script runs on: the repository and whatever else the
    commands read or change.  The scripts reach it through commands only. *)
Class Shell : Type := {
  World : Type;
  sh : Cmd -> World -> Completed * World
}.

(** An Enquirer choice [{ name, message, disabled }]. *)
Record Choice : Type := mkChoice {
  name : option string;
  message : string;
  disabled : bool
}.

Definition choice (n m : string) : Choice := mkChoice (Some n) m false.

(** Enquirer fills a missing or empty [name] with the [message]. *)
Definition choice_name (c : Choice) : string :=
  match name c with
  | Some n => Js.or_else n (message c)
  | None => message c
  end.

Inductive Prompt : Type :=
| Select (msg : string) (choices : list Choice) (initial : nat)
| MultiSelect (msg : string) (choices : list Choice)
| Input (msg : string)
| Confirm (msg : string) (initial : bool).

(** What the operator does at a prompt. *)
Inductive Key : Type :=
| Pick (i : nat)            (* move to the i-th choice, Enter *)
| Toggle (ixs : list nat)   (* tick these choices, Enter *)
| Line (s : string)         (* type a line, Enter *)
| YesNo (b : bool)          (* y / n *)
| Enter                     (* accept what is preselected *)
| CtrlC.                    (* interrupt *)

(** What an observer of the process sees, in order. *)
Inductive Event : Type :=
| Ran (c : Cmd) (r : Completed)   (* the Shell Executor was invoked *)
| Out (s : string)                (* console.log *)
| Err (s : string)                (* console.error *)
| Asked (p : Prompt)              (* a prompt was rendered *)
| Got (k : Key)                   (* the operator acted on it *)
| Refused (why : string).         (* validate failed: the prompt stays *)

(** What can be thrown: the empty string Enquirer rejects with on an
    interrupt, the Error of a failed [execSync], another Error (a
    TypeError, a prompt that cannot start) with its message. *)
Inductive Error : Type :=
| ECancel
| ECommand (line : string) (r : Completed)
| EError (message : string).

(** [err && err.message ? err.message : err], as printed. *)
Definition error_text (e : Error) : string :=
  match e with
  | ECancel => ""
  | ECommand line r =>
      "Command failed: " ++ line ++
      (if Js.truthy (stderr r) then Js.nl ++ stderr r else EmptyString)
  | EError message => message
  end.

Inductive Outcome (A : Type) : Type :=
| Done (a : A)          (* ran to its end *)
| Exited (code : Z)     (* process.exit(code) *)
| Thrown (e : Error)    (* exception, or rejected promise *)
| Waiting               (* suspended at a prompt nobody answers *)
| Unfinished.           (* the model's budget of nested calls ran out *)

Arguments Done {A} a.
Arguments Exited {A} code.
Arguments Thrown {A} e.
Arguments Waiting {A}.
Arguments Unfinished {A}.

Definition cast {A B : Type} (o : Outcome A) (d : Outcome B) : Outcome B :=
  match o with
  | Done _ => d
  | Exited c => Exited c
  | Thrown e => Thrown e
  | Waiting => Waiting
  | Unfinished => Unfinished
  end.

Section Process.
Context {SH : Shell}.

Record Run (A : Type) : Type := mkRun {
  outcome : Outcome A;
  world : World;
  keys : list Key;
  trace : list Event
}.

Arguments mkRun {A}.
Arguments outcome {A}.
Arguments world {A}.
Arguments keys {A}.
Arguments trace {A}.

Definition M (A : Type) : Type := World -> list Key -> Run A.

Definition ret {A : Type} (a : A) : M A :=
  fun w ks => mkRun (Done a) w ks [].

Definition bind {A B : Type} (m : M A) (f : A -> M B) : M B :=
  fun w ks =>
    let r := m w ks in
    match outcome r with
    | Done a =>
        let r' := f a (world r) (keys r) in
        mkRun (outcome r') (world r') (keys r') (trace r ++ trace r')
    | o => mkRun (cast o Waiting) (world r) (keys r) (trace r)
    end.

(** [process.exit(code)] *)
Definition exit {A : Type} (code : Z) : M A :=
  fun w ks => mkRun (Exited code) w ks [].

Definition throw {A : Type} (e : Error) : M A :=
  fun w ks => mkRun (Thrown e) w ks [].

Definition unfinished {A : Type} : M A :=
  fun w ks => mkRun Unfinished w ks [].

(** [try { m } catch (e) { h e }]: [process.exit] is not caught. *)
Definition try_catch {A : Type} (m : M A) (h : Error -> M A) : M A :=
  fun w ks =>
    let r := m w ks in
    match outcome r with
    | Thrown e =>
        let r' := h e (world r) (keys r) in
        mkRun (outcome r') (world r') (keys r') (trace r ++ trace r')
    | _ => r
    end.

Definition emit (e : Event) : M unit :=
  fun w ks => mkRun (Done tt) w ks [e].

Definition console_log (s : string) : M unit := emit (Out s).
Definition console_error (s : string) : M unit := emit (Err s).

Definition invoke (c : Cmd) : M Completed :=
  fun w ks =>
    let r := fst (sh c w) in
    mkRun (Done r) (snd (sh c w)) ks [Ran c r].

(** [spawnSync] hands back the result whatever the status. *)
Definition spawnSync (file : string) (args : list string) (stdio : Stdio)
  : M Completed :=
  invoke (SpawnSync file args stdio).

(** [execSync(line, { encoding: 'utf8' })]: the text, or an exception
    when the command did not exit with 0. *)
Definition execSync (line : string) : M string :=
  bind (invoke (ExecSync line)) (fun r =>
    if succeeded r then ret (stdout r) else throw (ECommand line r)).

(** The operator's next action, if there is one. *)
Definition answer {A : Type} (p : Prompt) (read : Key -> option A) : M A :=
  fun w ks =>
    match ks with
    | CtrlC :: ks' => mkRun (Thrown ECancel) w ks' [Asked p; Got CtrlC]
    | k :: ks' =>
        match read k with
        | Some a => mkRun (Done a) w ks' [Asked p; Got k]
        | None => mkRun Waiting w ks [Asked p]
        end
    | [] => mkRun Waiting w ks [Asked p]
    end.

Definition pickable (cs : list Choice) (i : nat) : option string :=
  match nth_error cs i with
  | Some c => if disabled c then None else Some (choice_name c)
  | None => None
  end.

(** A list prompt refuses to start when no entry can be chosen: [run()]
    rejects with this Error before anything is rendered. *)
Definition selectable (cs : list Choice) : bool :=
  existsb (fun c => negb (disabled c)) cs.

Definition NO_CHOICE : string := "At least one choice must be selectable".

(** [new Select({ message, choices, initial }).run()]: the name of the
    chosen entry. *)
Definition select (msg : string) (cs : list Choice) (initial : nat) : M string :=
  if selectable cs then
    answer (Select msg cs initial) (fun k =>
      match k with
      | Pick i => pickable cs i
      | Enter => pickable cs initial
      | _ => None
      end)
  else throw (EError NO_CHOICE).

Fixpoint ticked (cs : list Choice) (i : nat) (ixs : list nat) : list string :=
  match cs with
  | [] => []
  | c :: r =>
      if existsb (Nat.eqb i) ixs && negb (disabled c)
      then choice_name c :: ticked r (S i) ixs
      else ticked r (S i) ixs
  end.

(** [new MultiSelect({ message, choices }).run()]: the names of the
    ticked entries, in the order they are listed. *)
Definition multiSelect (msg : string) (cs : list Choice) : M (list string) :=
  if selectable cs then
    answer (MultiSelect msg cs) (fun k =>
      match k with
      | Toggle ixs => Some (ticked cs 0 ixs)
      | Enter => Some []
      | _ => None
      end)
  else throw (EError NO_CHOICE).

(** [new Confirm({ message, initial }).run()] *)
Definition confirm (msg : string) (initial : bool) : M bool :=
  answer (Confirm msg initial) (fun k =>
    match k with
    | YesNo b => Some b
    | Enter => Some initial
    | _ => None
    end).

(** [new Input({ message, validate }).run()]: [validate] answers [true]
    ([None]) or the complaint to show; on a complaint the prompt stays
    and reads on. *)
Fixpoint input_loop (validate : string -> option string) (ks : list Key)
  : Outcome string * list Key * list Event :=
  match ks with
  | [] => (Waiting, [], [])
  | k :: ks' =>
      let line :=
        match k with
        | Line s => Some s
        | Enter => Some EmptyString
        | _ => None
        end in
      match k, line with
      | CtrlC, _ => (Thrown ECancel, ks', [Got CtrlC])
      | _, Some s =>
          match validate s with
          | None => (Done s, ks', [Got k])
          | Some why =>
              let '(o, ks'', t) := input_loop validate ks' in
              (o, ks'', Got k :: Refused why :: t)
          end
      | _, None => (Waiting, ks, [])
      end
  end.

Definition input (msg : string) (validate : string -> option string) : M string :=
  fun w ks =>
    let '(o, ks', t) := input_loop validate ks in
    mkRun o w ks' (Asked (Input msg) :: t).

(** [for (const x of l) body(x)] *)
Fixpoint for_each {A : Type} (l : list A) (body : A -> M unit) : M unit :=
  match l with
  | [] => ret tt
  | x :: r => bind (body x) (fun _ => for_each r body)
  end.

(** [l.forEach((x, index) => body(x, index))] *)
Fixpoint for_each_i {A : Type} (i : nat) (l : list A) (body : nat -> A -> M unit)
  : M unit :=
  match l with
  | [] => ret tt
  | x :: r => bind (body i x) (fun _ => for_each_i (S i) r body)
  end.

End Process.

Arguments mkRun {_ A}.
Arguments outcome {_ A}.
Arguments world {_ A}.
Arguments keys {_ A}.
Arguments trace {_ A}.

Declare Scope proc_scope.
Delimit Scope proc_scope with proc.
Notation "x <- m ;; k" := (bind m (fun x => k))
  (at level 61, m at next level, right associativity) : proc_scope.
Notation "m ;; k" := (bind m (fun _ => k))
  (at level 61, right associativity) : proc_scope.
Open Scope proc_scope.

(** The message every script prints when it finds no repository. *)
Definition NOT_A_REPO : string :=
  "❌ 当前目录不是 Git 仓库，请先进入一个仓库目录。".

(** [--pretty=format:"%H|%h|%s|%ar|%an"] *)
Definition LOG_FORMAT : string :=
  "--pretty=format:" ++ Js.dq ++ "%H|%h|%s|%ar|%an" ++ Js.dq.

(* ================================================================== *)
(** ** scripts/res.js: the reset tool                                  *)
(* ================================================================== *)

Module Res.

Record StagedFile : Type := mkStaged {
  file : option string;
  status : string;
  statusText : string
}.

Record Commit : Type := mkCommit {
  fullHash : option string;
  shortHash : option string;
  message : option string;
  time : option string;
  author : option string
}.

Record RemoteBranch : Type := mkRemote {
  local : string;
  remote : string;
  remoteBranch : string;
  fullRemote : string
}.

Record RemoteDiff : Type := mkDiff {
  ahead : Js.num;
  behind : Js.num;
  aheadCommits : list string;
  behindCommits : list string
}.

(** [const [status, file] = line.split('\t')] and the [switch] on it. *)
Definition parseStagedLine (line : string) : StagedFile :=
  let fields := Js.split (ascii_of_nat 9) line in
  let status := hd EmptyString fields in
  let statusText :=
    if String.eqb status "M" then "modified"
    else if String.eqb status "A" then "new file"
    else if String.eqb status "D" then "deleted"
    else if String.eqb status "R" then "renamed"
    else "changed" in
  mkStaged (nth_error fields 1) status statusText.

(** [const [fullHash, shortHash, message, time, author] = line.split('|')] *)
Definition parseCommitLine (line : string) : Commit :=
  let fields := Js.split "|"%char line in
  mkCommit (nth_error fields 0) (nth_error fields 1) (nth_error fields 2)
           (nth_error fields 3) (nth_error fields 4).

Definition listed (c : Commit) : string :=
  Js.str (shortHash c) ++ " - " ++ Js.str (message c) ++
  " (" ++ Js.str (time c) ++ ")".

(** [(value) => { const num = parseInt(value);
                  return num > 0 && num < 100 ? true : '...' }] *)
Definition validateCount (value : string) : option string :=
  let num := Js.parseInt value in
  if Js.lt (Js.Fin 0) num && Js.lt num (Js.Fin 100) then None
  else Some "请输入 1-99 之间的数字".

(** [(value) => value === 'yes' ? true : '...'] *)
Definition validateYes (value : string) : option string :=
  if String.eqb value "yes" then None
  else Some ("请输入 " ++ Js.dq ++ "yes" ++ Js.dq ++ " 确认").

(** [(value) => value.length >= 6 ? true : '...'] *)
Definition validateHash (value : string) : option string :=
  if Nat.leb 6 (Js.length value) then None
  else Some "请输入至少 6 个字符".

(** The entry of the multi-select that stands for every file. *)
Definition ALL : string := "__all__".

(** [if (selected.includes('__all__')) selected = staged.map(item => item.file);
     else selected = selected.filter(s => s !== '__all__');] *)
Definition expandSelection (staged : list StagedFile) (selected : list string)
  : list (option string) :=
  if Js.mem ALL selected then map file staged
  else map Some (filter (fun s => negb (String.eqb s ALL)) selected).

Definition countChoices : list Choice :=
  [ choice "1" "回退 1 次提交";
    choice "2" "回退 2 次提交";
    choice "3" "回退 3 次提交";
    choice "5" "回退 5 次提交";
    choice "custom" "自定义次数" ].

Definition rewindModes : list Choice :=
  [ choice "soft"
      ("💚 soft   - 保留修改在暂存区（可以重新提交）" ++ Js.nl ++
       "          适用场景：想重新编写提交信息");
    choice "mixed"
      ("🟡 mixed  - 保留修改但取消暂存（默认模式）" ++ Js.nl ++
       "          适用场景：想重新整理要提交的内容");
    choice "hard"
      ("🔴 hard   - 完全丢弃所有修改 ⚠️  危险操作！" ++ Js.nl ++
       "          适用场景：确定要放弃这些提交和修改") ].

Definition remoteModes : list Choice :=
  [ choice "mixed" "mixed - 保留本地修改但取消暂存（推荐）";
    choice "soft" "soft  - 保留本地修改在暂存区";
    choice "hard" "hard  - 完全丢弃本地修改 ⚠️" ].

Definition commitModes : list Choice :=
  [ choice "mixed" "mixed - 保留修改但取消暂存（推荐）";
    choice "soft" "soft  - 保留修改在暂存区";
    choice "hard" "hard  - 完全丢弃所有修改 ⚠️" ].

Definition methodChoices : list Choice :=
  [ choice "list" "从列表中选择提交";
    choice "manual" "手动输入 commit hash" ].

Definition mainChoices : list Choice :=
  [ choice "resetCommits" "📜 回退提交 - 撤销最近的提交（保留或丢弃修改）";
    choice "unstageFiles" "📦 取消暂存文件 - 将已暂存的文件移出暂存区";
    choice "resetToRemote" "🔗 重置到远程分支 - 将本地分支重置到远程最新状态";
    choice "resetToCommit" "🎯 重置到指定提交 - 输入 commit hash 进行精确重置";
    choice "cancel" "❌ 取消" ].

Definition CANCELLED : string := Js.nl ++ Js.nl ++ "已取消操作" ++ Js.nl.
Definition IN_SYNC : string := "✅ 本地分支已经与远程分支同步" ++ Js.nl.

Definition unstaged_ok (f : option string) : string := "  ✅ " ++ Js.str f.
Definition unstaged_failed (f : option string) : string :=
  "  ❌ " ++ Js.str f ++ " (失败)".

Section Tool.
Context {SH : Shell}.

Definition run (cmd : string) (ignoreError : bool) : M string :=
  try_catch (out <- execSync cmd ;; ret (Js.trim out))
            (fun e => if ignoreError then ret EmptyString else throw e).

Definition isGitRepo : M bool :=
  result <- spawnSync "git" ["rev-parse"; "--is-inside-work-tree"] Pipe ;;
  ret (succeeded result).

Definition getCurrentBranch : M (option string) :=
  try_catch (b <- run "git branch --show-current" false ;; ret (Some b))
            (fun _ => ret None).

Definition getStagedFiles : M (list StagedFile) :=
  try_catch
    (output <- run "git diff --cached --name-status" false ;;
     if Js.truthy output
     then ret (map parseStagedLine (Js.split Js.LF output))
     else ret [])
    (fun _ => ret []).

Definition getCommits (count : Js.num) : M (list Commit) :=
  try_catch
    (output <- run ("git log -" ++ Js.show count ++ " " ++ LOG_FORMAT) false ;;
     if Js.truthy output
     then ret (map parseCommitLine (Js.split Js.LF output))
     else ret [])
    (fun _ => ret []).

Definition getRemoteBranch : M (option RemoteBranch) :=
  try_catch
    (branch <- getCurrentBranch ;;
     match branch with
     | None => ret None
     | Some branch =>
         if negb (Js.truthy branch) then ret None
         else
           r <- run ("git config branch." ++ branch ++ ".remote") true ;;
           let remote := Js.or_else r "origin" in
           m <- run ("git config branch." ++ branch ++ ".merge") true ;;
           let remoteBranch :=
             Js.or_else (Js.remove_first "refs/heads/" m) branch in
           ret (Some (mkRemote branch remote remoteBranch
                               (remote ++ "/" ++ remoteBranch)))
     end)
    (fun _ => ret None).

Definition getCommitsInRange (range : string) : M (list string) :=
  try_catch
    (output <- run ("git log " ++ range ++ " --pretty=format:" ++
                    Js.dq ++ "%h %s" ++ Js.dq) false ;;
     if Js.truthy output then ret (Js.split Js.LF output) else ret [])
    (fun _ => ret []).

Definition getRemoteDiff : M (option RemoteDiff) :=
  try_catch
    (info <- getRemoteBranch ;;
     match info with
     | None => ret None
     | Some info =>
         console_log ("🔄 正在获取远程信息..." ++ Js.nl) ;;
         _ <- spawnSync "git" ["fetch"; remote info] Pipe ;;
         ahead <- run ("git rev-list --count " ++ fullRemote info ++ "..HEAD") true ;;
         behind <- run ("git rev-list --count HEAD.." ++ fullRemote info) true ;;
         aheadCommits <-
           (if Js.truthy ahead
            then getCommitsInRange (fullRemote info ++ "..HEAD") else ret []) ;;
         behindCommits <-
           (if Js.truthy behind
            then getCommitsInRange ("HEAD.." ++ fullRemote info) else ret []) ;;
         ret (Some (mkDiff (Js.or_zero (Js.parseInt ahead))
                           (Js.or_zero (Js.parseInt behind))
                           aheadCommits behindCommits))
     end)
    (fun _ => ret None).

(** The part of [resetCommits] after the mode is chosen. *)
Definition executeRewind (numCount : Js.num) (mode : string) : M unit :=
  let targetCommit := "HEAD~" ++ Js.show numCount in
  result <- spawnSync "git" ["reset"; "--" ++ mode; targetCommit] Inherit ;;
  if succeeded result then
    console_log (Js.nl ++ "✅ 已成功回退 " ++ Js.show numCount ++ " 次提交（模式：" ++
         mode ++ "）" ++ Js.nl) ;;
    currentHead <- run ("git log -1 --pretty=format:" ++ Js.dq ++ "%h - %s" ++ Js.dq)
                       false ;;
    console_log "当前状态：" ;;
    console_log ("  HEAD 现在位于: " ++ currentHead ++ Js.nl) ;;
    console_log ("💡 提示：运行 'git reflog' 可以查看完整的操作历史" ++ Js.nl)
  else
    console_error (Js.nl ++ "❌ 回退失败" ++ Js.nl) ;;
    exit 1.

Definition resetCommits : M unit :=
  console_log (Js.nl ++ "📜 回退提交" ++ Js.nl) ;;
  count <- select "请选择要回退多少次提交：" countChoices 0 ;;
  count <- (if String.eqb count "custom"
            then input "请输入要回退的提交次数：" validateCount
            else ret count) ;;
  let numCount := Js.parseInt count in
  console_log (Js.nl ++ "📋 将要回退以下 " ++ Js.show numCount ++ " 次提交：" ++ Js.nl) ;;
  commits <- getCommits numCount ;;
  for_each_i 0 commits (fun index commit =>
    console_log ("  " ++ Js.show_nat (index + 1) ++ ". " ++ listed commit)) ;;
  console_log Js.nl ;;
  mode <- select "请选择回退模式：" rewindModes 1 ;;
  (if String.eqb mode "hard" then
     console_log (Js.nl ++ "⚠️  警告：此操作将永久删除以下内容：") ;;
     console_log ("   - 最近 " ++ Js.show numCount ++ " 次提交的所有修改") ;;
     console_log ("   - 工作区中未提交的更改" ++ Js.nl) ;;
     console_log ("❌ 此操作不可恢复！" ++ Js.nl) ;;
     _ <- input ("请输入 " ++ Js.dq ++ "yes" ++ Js.dq ++ " 确认执行 hard reset：")
                validateYes ;;
     ret tt
   else ret tt) ;;
  executeRewind numCount mode.

Definition unstageChoices (staged : list StagedFile) : list Choice :=
  choice ALL "🔘 全选（取消暂存所有文件）" ::
  map (fun item =>
         mkChoice (file item)
                  (Js.str (file item) ++ " (" ++ statusText item ++ ")") false)
      staged.

(** [for (const file of selected) { spawnSync('git', ['reset', 'HEAD', file]) ... }] *)
Definition unstageEach (selected : list (option string)) : M unit :=
  for_each selected (fun file =>
    result <- spawnSync "git" ["reset"; "HEAD"; Js.str file] Pipe ;;
    if succeeded result then console_log (unstaged_ok file)
    else console_log (unstaged_failed file)).

(** The part of [unstageFiles] after the selection is settled. *)
Definition unstageSelected (selected : list (option string)) : M unit :=
  match selected with
  | [] => console_log (Js.nl ++ "未选择任何文件" ++ Js.nl)
  | _ =>
      console_log EmptyString ;;
      unstageEach selected ;;
      console_log (Js.nl ++ "✅ 已取消暂存 " ++ Js.show_nat (length selected) ++
           " 个文件" ++ Js.nl) ;;
      console_log ("💡 文件修改仍在工作区中保留" ++ Js.nl)
  end.

Definition unstageFiles : M unit :=
  console_log (Js.nl ++ "📦 取消暂存文件" ++ Js.nl) ;;
  staged <- getStagedFiles ;;
  match staged with
  | [] => console_log ("ℹ️  当前没有已暂存的文件" ++ Js.nl)
  | _ =>
      console_log ("当前已暂存的文件：" ++ Js.nl) ;;
      selected <- multiSelect "请选择要取消暂存的文件（空格选择，回车确认）："
                              (unstageChoices staged) ;;
      unstageSelected (expandSelection staged selected)
  end.

Definition resetToRemote : M unit :=
  console_log (Js.nl ++ "🔗 重置到远程分支" ++ Js.nl) ;;
  info <- getRemoteBranch ;;
  match info with
  | None => console_error ("❌ 无法获取远程分支信息" ++ Js.nl)
  | Some info =>
      console_log ("当前分支：" ++ local info) ;;
      console_log ("远程分支：" ++ fullRemote info ++ Js.nl) ;;
      diff <- getRemoteDiff ;;
      match diff with
      | None => console_error ("❌ 无法获取远程差异信息" ++ Js.nl)
      | Some diff =>
          if Js.eq (ahead diff) (Js.Fin 0) && Js.eq (behind diff) (Js.Fin 0)
          then console_log IN_SYNC
          else
            console_log ("📊 本地与远程的差异：" ++ Js.nl) ;;
            (if Js.lt (Js.Fin 0) (ahead diff) then
               console_log ("本地领先 " ++ Js.show (ahead diff) ++ " 个提交：") ;;
               for_each (aheadCommits diff) (fun commit => console_log ("  - " ++ commit)) ;;
               console_log EmptyString
             else ret tt) ;;
            (if Js.lt (Js.Fin 0) (behind diff) then
               console_log ("远程领先 " ++ Js.show (behind diff) ++ " 个提交：") ;;
               for_each (behindCommits diff) (fun commit => console_log ("  - " ++ commit)) ;;
               console_log EmptyString
             else ret tt) ;;
            console_log ("⚠️  此操作会将本地分支重置到远程分支的最新状态" ++ Js.nl) ;;
            mode <- select "请选择重置模式：" remoteModes 0 ;;
            confirmed <- confirm ("确认要将本地分支重置到 " ++ fullRemote info ++ " 吗？")
                                 false ;;
            if negb confirmed then console_log (Js.nl ++ "已取消操作" ++ Js.nl)
            else
              console_log (Js.nl ++ "执行中..." ++ Js.nl) ;;
              result <- spawnSync "git" ["reset"; "--" ++ mode; fullRemote info] Inherit ;;
              if succeeded result
              then console_log (Js.nl ++ "✅ 已成功重置到 " ++ fullRemote info ++ Js.nl)
              else console_error (Js.nl ++ "❌ 重置失败" ++ Js.nl) ;; exit 1
      end
  end.

(** What [resetToCommit] does once it holds the target's record. *)
Definition resetToShown (commitInfo : Commit) : M unit :=
  console_log (Js.nl ++ "目标提交信息：") ;;
  console_log ("  Hash: " ++ Js.str (shortHash commitInfo)) ;;
  console_log ("  作者: " ++ Js.str (author commitInfo)) ;;
  console_log ("  时间: " ++ Js.str (time commitInfo)) ;;
  console_log ("  信息: " ++ Js.str (message commitInfo) ++ Js.nl) ;;
  mode <- select "请选择重置模式：" commitModes 0 ;;
  console_log (Js.nl ++ "⚠️  将重置到提交: " ++ Js.str (shortHash commitInfo)) ;;
  confirmed <- confirm "确认执行吗？" false ;;
  if negb confirmed then console_log (Js.nl ++ "已取消操作" ++ Js.nl)
  else
    console_log (Js.nl ++ "执行中..." ++ Js.nl) ;;
    result <- spawnSync "git" ["reset"; "--" ++ mode; Js.str (shortHash commitInfo)]
                        Inherit ;;
    if succeeded result
    then console_log (Js.nl ++ "✅ 已成功重置到指定提交" ++ Js.nl)
    else console_error (Js.nl ++ "❌ 重置失败" ++ Js.nl) ;; exit 1.

Definition resetToCommit : M unit :=
  console_log (Js.nl ++ "🎯 重置到指定提交" ++ Js.nl) ;;
  console_log ("最近的 10 次提交：" ++ Js.nl) ;;
  commits <- getCommits (Js.Fin 10) ;;
  for_each_i 0 commits (fun index commit =>
    console_log ("  " ++ Js.padStart (Js.show_nat (index + 1)) 2 ++ ". " ++ listed commit)) ;;
  console_log EmptyString ;;
  method <- select "请选择：" methodChoices 0 ;;
  if String.eqb method "list" then
    targetCommit <- select "请选择要重置到的提交："
                      (map (fun commit => mkChoice (shortHash commit) (listed commit) false)
                           commits) 0 ;;
    match find (fun c => match shortHash c with
                         | Some h => String.eqb h targetCommit
                         | None => false
                         end) commits with
    | Some commitInfo => resetToShown commitInfo
    | None =>
        (* [commitInfo] is undefined: reading [commitInfo.shortHash] throws *)
        console_log (Js.nl ++ "目标提交信息：") ;;
        throw (EError
                 "Cannot read properties of undefined (reading 'shortHash')")
    end
  else
    targetCommit <- input "请输入 commit hash (完整或前 7 位)：" validateHash ;;
    found <- try_catch
               (info <- run ("git log -1 " ++ targetCommit ++ " " ++ LOG_FORMAT) false ;;
                ret (Some (parseCommitLine info)))
               (fun _ => console_error (Js.nl ++ "❌ 无效的 commit hash" ++ Js.nl) ;; ret None) ;;
    match found with
    | Some commitInfo => resetToShown commitInfo
    | None => ret tt
    end.

Definition dispatch (action : string) : M unit :=
  if String.eqb action "resetCommits" then resetCommits
  else if String.eqb action "unstageFiles" then unstageFiles
  else if String.eqb action "resetToRemote" then resetToRemote
  else if String.eqb action "resetToCommit" then resetToCommit
  else if String.eqb action "cancel" then console_log (Js.nl ++ "已取消" ++ Js.nl)
  else ret tt.

Definition main : M unit :=
  repo <- isGitRepo ;;
  (if negb repo then console_error NOT_A_REPO ;; exit 1 else ret tt) ;;
  console_log (Js.nl ++ "🔄 Git Reset 工具" ++ Js.nl) ;;
  try_catch
    (action <- select "请选择要执行的操作：" mainChoices 0 ;;
     dispatch action)
    (fun err =>
       match err with
       | ECancel => console_log CANCELLED ;; exit 0
       | _ =>
           console_error (Js.nl ++ "操作出错：" ++ " " ++ error_text err) ;;
           exit 1
       end).

End Tool.

End Res.

(* ================================================================== *)
(** ** scripts/stash.js: the stash manager                             *)
(* ================================================================== *)

Module Stash.

Record WorkingStatus : Type := mkStatus {
  modified : nat;
  staged : nat;
  untracked : nat
}.

Record StashEntry : Type := mkStash {
  ref : string;
  message : option string;
  time : option string
}.

(** [const [ref, message, time] = line.split('|')] *)
Definition parseStashLine (line : string) : StashEntry :=
  let fields := Js.split "|"%char line in
  mkStash (hd EmptyString fields) (nth_error fields 1) (nth_error fields 2).

(** [text ? text.split('\n').filter(Boolean).length : 0] *)
Definition countLines (text : string) : nat :=
  if Js.truthy text then length (Js.nonempty (Js.split Js.LF text)) else 0.

(** [(value) => value.trim() ? true : '...'] *)
Definition validateMessage (value : string) : option string :=
  if Js.truthy (Js.trim value) then None else Some "说明信息不能为空".

(** [(value) => value === 'yes' ? true : '...'] *)
Definition validateYes (value : string) : option string :=
  if String.eqb value "yes" then None
  else Some ("请输入 " ++ Js.dq ++ "yes" ++ Js.dq ++ " 确认").

Definition STASH_LIST : string :=
  "git stash list --pretty=format:" ++ Js.dq ++ "%gd|%s|%cr" ++ Js.dq.

Definition pushOptions : list Choice :=
  [ choice "default"
      ("💾 暂存所有修改（不包括未跟踪文件）" ++ Js.nl ++ "          git stash push");
    choice "message"
      ("📝 暂存并添加说明信息" ++ Js.nl ++ "          git stash push -m " ++
       Js.dq ++ "message" ++ Js.dq);
    choice "include-untracked"
      ("📦 包含未跟踪的文件" ++ Js.nl ++ "          git stash push -u");
    choice "keep-index"
      ("🎯 仅暂存未暂存的文件（保持已暂存状态）" ++ Js.nl ++
       "          git stash push --keep-index");
    choice "all"
      ("🗂️  包含所有文件（包括忽略的文件）" ++ Js.nl ++ "          git stash push -a") ].

Definition stashChoices (stashes : list StashEntry) : list Choice :=
  (fix entries (index : nat) (l : list StashEntry) : list Choice :=
     match l with
     | [] => []
     | stash :: r =>
         choice (ref stash)
                ("[" ++ Js.show_nat index ++ "] " ++ Js.str (message stash) ++
                 " (" ++ Js.str (time stash) ++ ")")
         :: entries (S index) r
     end) 0 stashes ++
  [ mkChoice (Some "__separator__") (Js.repeat "─" 60) true;
    choice "__clear__" "🧹 清空所有暂存";
    choice "__cancel__" "← 返回" ].

Definition actionChoices : list Choice :=
  [ choice "pop"
      ("📤 恢复并删除 (pop)" ++ Js.nl ++
       "          应用暂存的修改到工作区，并从 stash 列表中删除");
    choice "apply"
      ("📌 应用但保留 (apply)" ++ Js.nl ++
       "          应用暂存的修改到工作区，但保留在 stash 列表中");
    choice "show"
      ("👀 查看内容 (show)" ++ Js.nl ++ "          查看这个 stash 包含的修改");
    choice "drop"
      ("🗑️  删除 (drop)" ++ Js.nl ++ "          从 stash 列表中删除这个暂存");
    choice "cancel" "← 返回" ].

(** The menu [main] builds from what it found. *)
Definition mainChoices (changes : bool) (stashes : list StashEntry) : list Choice :=
  (if changes
   then [ choice "stash" "💾 暂存当前修改 - 保存工作区和暂存区的修改" ]
   else []) ++
  (if Nat.ltb 0 (length stashes)
   then [ choice "manage"
            ("📋 管理已有暂存 (" ++ Js.show_nat (length stashes) ++
             "个) - 恢复、应用、查看或删除");
          choice "list" "📜 查看暂存列表 - 显示所有 stash 的详细信息" ]
   else []).

Definition CANCELLED : string := Js.nl ++ Js.nl ++ "已取消操作" ++ Js.nl.
Definition NOTHING_TO_DO : string := "ℹ️  工作区干净，且没有已保存的暂存" ++ Js.nl.

Definition stash_count (n : nat) : string :=
  "📊 当前 stash 数量：" ++ Js.show_nat n ++ Js.nl.
Definition stash_remaining (n : nat) : string :=
  "📊 剩余 stash 数量：" ++ Js.show_nat n ++ Js.nl.

Section Tool.
Context {SH : Shell}.

Definition run (cmd : string) (ignoreError : bool) : M string :=
  try_catch (out <- execSync cmd ;; ret (Js.trim out))
            (fun e => if ignoreError then ret EmptyString else throw e).

Definition isGitRepo : M bool :=
  result <- spawnSync "git" ["rev-parse"; "--is-inside-work-tree"] Pipe ;;
  ret (succeeded result).

Definition getCurrentBranch : M (option string) :=
  try_catch (b <- run "git branch --show-current" false ;; ret (Some b))
            (fun _ => ret None).

Definition getWorkingStatus : M WorkingStatus :=
  try_catch
    (modifiedFiles <- run "git diff --name-only" true ;;
     stagedFiles <- run "git diff --cached --name-only" true ;;
     untrackedFiles <- run "git ls-files --others --exclude-standard" true ;;
     ret (mkStatus (countLines modifiedFiles) (countLines stagedFiles)
                   (countLines untrackedFiles)))
    (fun _ => ret (mkStatus 0 0 0)).

Definition getStashList : M (list StashEntry) :=
  try_catch
    (output <- run STASH_LIST true ;;
     if Js.truthy output
     then ret (map parseStashLine (Js.split Js.LF output))
     else ret [])
    (fun _ => ret []).

Definition hasChanges : M bool :=
  status <- getWorkingStatus ;;
  ret (Nat.ltb 0 (modified status) || Nat.ltb 0 (staged status)).

Definition stashChanges : M unit :=
  console_log (Js.nl ++ "💾 暂存当前修改" ++ Js.nl) ;;
  status <- getWorkingStatus ;;
  if Nat.eqb (modified status) 0 && Nat.eqb (staged status) 0
  then console_log ("ℹ️  工作区没有需要暂存的修改" ++ Js.nl)
  else
    console_log "当前工作区状态：" ;;
    (if Nat.ltb 0 (modified status)
     then console_log ("  📝 已修改：" ++ Js.show_nat (modified status) ++ " 个文件")
     else ret tt) ;;
    (if Nat.ltb 0 (staged status)
     then console_log ("  ✅ 已暂存：" ++ Js.show_nat (staged status) ++ " 个文件")
     else ret tt) ;;
    (if Nat.ltb 0 (untracked status)
     then console_log ("  ❓ 未跟踪：" ++ Js.show_nat (untracked status) ++ " 个文件")
     else ret tt) ;;
    console_log EmptyString ;;
    option <- select "请选择暂存选项：" pushOptions 0 ;;
    args <-
      (if String.eqb option "message" then
         message <- input "请输入说明信息：" validateMessage ;;
         ret ["stash"; "push"; "-m"; message]
       else if String.eqb option "include-untracked" then ret ["stash"; "push"; "-u"]
       else if String.eqb option "keep-index" then ret ["stash"; "push"; "--keep-index"]
       else if String.eqb option "all" then ret ["stash"; "push"; "-a"]
       else ret ["stash"; "push"]) ;;
    console_log (Js.nl ++ "执行中..." ++ Js.nl) ;;
    result <- spawnSync "git" args Inherit ;;
    if succeeded result then
      console_log (Js.nl ++ "✅ 已成功暂存修改" ++ Js.nl) ;;
      stashes <- getStashList ;;
      console_log (stash_count (length stashes)) ;;
      console_log ("💡 提示：使用 stash 命令管理你的暂存" ++ Js.nl)
    else
      console_error (Js.nl ++ "❌ 暂存失败" ++ Js.nl) ;;
      exit 1.

Definition popStash (stashRef : string) : M unit :=
  console_log (Js.nl ++ "📤 正在恢复 " ++ stashRef ++ "..." ++ Js.nl) ;;
  dirty <- hasChanges ;;
  go <- (if dirty then
           console_log ("⚠️  警告：工作区有未提交的修改" ++ Js.nl) ;;
           confirmed <- confirm "继续 pop 可能会导致冲突，是否继续？" false ;;
           (if negb confirmed then console_log (Js.nl ++ "已取消操作" ++ Js.nl) else ret tt) ;;
           ret confirmed
         else ret true) ;;
  if negb go then ret tt
  else
    result <- spawnSync "git" ["stash"; "pop"; stashRef] Inherit ;;
    if succeeded result then
      console_log (Js.nl ++ "✅ 已成功恢复 " ++ stashRef ++ Js.nl) ;;
      stashes <- getStashList ;;
      console_log (stash_remaining (length stashes))
    else
      console_error (Js.nl ++ "❌ 恢复失败，可能存在冲突" ++ Js.nl) ;;
      console_log ("💡 提示：解决冲突后，可以手动删除 stash：git stash drop " ++
           stashRef ++ Js.nl).

Definition applyStash (stashRef : string) : M unit :=
  console_log (Js.nl ++ "📌 正在应用 " ++ stashRef ++ "..." ++ Js.nl) ;;
  dirty <- hasChanges ;;
  go <- (if dirty then
           console_log ("⚠️  警告：工作区有未提交的修改" ++ Js.nl) ;;
           confirmed <- confirm "继续 apply 可能会导致冲突，是否继续？" false ;;
           (if negb confirmed then console_log (Js.nl ++ "已取消操作" ++ Js.nl) else ret tt) ;;
           ret confirmed
         else ret true) ;;
  if negb go then ret tt
  else
    result <- spawnSync "git" ["stash"; "apply"; stashRef] Inherit ;;
    if succeeded result then
      console_log (Js.nl ++ "✅ 已成功应用 " ++ stashRef ++ Js.nl) ;;
      console_log ("💡 提示：修改已应用到工作区，但 stash 仍保留在列表中" ++ Js.nl)
    else console_error (Js.nl ++ "❌ 应用失败，可能存在冲突" ++ Js.nl).

Definition dropStash (stashRef : string) : M unit :=
  stashInfo <- run ("git stash list | grep " ++ Js.dq ++ stashRef ++ Js.dq) false ;;
  console_log (Js.nl ++ "🗑️  准备删除：" ++ stashInfo ++ Js.nl) ;;
  console_log ("⚠️  此操作不可恢复！" ++ Js.nl) ;;
  confirmed <- confirm ("确认删除 " ++ stashRef ++ " 吗？") false ;;
  if negb confirmed then console_log (Js.nl ++ "已取消操作" ++ Js.nl)
  else
    result <- spawnSync "git" ["stash"; "drop"; stashRef] Inherit ;;
    if succeeded result then
      console_log (Js.nl ++ "✅ 已成功删除 " ++ stashRef ++ Js.nl) ;;
      stashes <- getStashList ;;
      console_log (stash_remaining (length stashes))
    else console_error (Js.nl ++ "❌ 删除失败" ++ Js.nl).

Definition clearAllStashes : M unit :=
  stashes <- getStashList ;;
  console_log (Js.nl ++ "🧹 准备清空所有暂存（共 " ++ Js.show_nat (length stashes) ++
       " 个）" ++ Js.nl) ;;
  console_log ("⚠️  此操作不可恢复！" ++ Js.nl) ;;
  console_log "以下暂存将被删除：" ;;
  for_each_i 0 stashes (fun index stash =>
    console_log ("  " ++ Js.show_nat (index + 1) ++ ". " ++ Js.str (message stash) ++
         " (" ++ Js.str (time stash) ++ ")")) ;;
  console_log EmptyString ;;
  _ <- input ("请输入 " ++ Js.dq ++ "yes" ++ Js.dq ++ " 确认清空所有 " ++
              Js.show_nat (length stashes) ++ " 个暂存：") validateYes ;;
  result <- spawnSync "git" ["stash"; "clear"] Inherit ;;
  if succeeded result
  then console_log (Js.nl ++ "✅ 已成功清空所有暂存" ++ Js.nl)
  else console_error (Js.nl ++ "❌ 清空失败" ++ Js.nl).

(** [showStash], with the call back into [operateOnStash] left open. *)
Definition showStash (operateOnStash : string -> M unit) (stashRef : string)
  : M unit :=
  console_log (Js.nl ++ "👀 查看 " ++ stashRef ++ " 的内容：" ++ Js.nl) ;;
  console_log (Js.repeat "=" 60) ;;
  _ <- spawnSync "git" ["stash"; "show"; "-p"; stashRef] Inherit ;;
  console_log (Js.repeat "=" 60) ;;
  console_log EmptyString ;;
  shouldContinue <- confirm "是否要对此 stash 执行其他操作？" false ;;
  if shouldContinue then operateOnStash stashRef else ret tt.

(** [operateOnStash] and [showStash] call each other for as long as the
    operator asks to; [budget] bounds the depth of that nesting. *)
Fixpoint operateOnStash (budget : nat) (stashRef : string) : M unit :=
  match budget with
  | O => unfinished
  | S budget' =>
      stashInfo <- run ("git stash list | grep " ++ Js.dq ++ stashRef ++ Js.dq) false ;;
      console_log (Js.nl ++ "选中的暂存：" ++ stashInfo ++ Js.nl) ;;
      action <- select ("对 " ++ stashRef ++ " 执行什么操作？") actionChoices 0 ;;
      if String.eqb action "cancel" then ret tt
      else if String.eqb action "pop" then popStash stashRef
      else if String.eqb action "apply" then applyStash stashRef
      else if String.eqb action "show"
           then showStash (operateOnStash budget') stashRef
      else if String.eqb action "drop" then dropStash stashRef
      else ret tt
  end.

Definition manageStashes (budget : nat) : M unit :=
  console_log (Js.nl ++ "📋 管理已有暂存" ++ Js.nl) ;;
  stashes <- getStashList ;;
  match stashes with
  | [] => console_log ("ℹ️  当前没有任何暂存" ++ Js.nl)
  | _ =>
      console_log ("当前有 " ++ Js.show_nat (length stashes) ++ " 个暂存：" ++ Js.nl) ;;
      selected <- select "请选择一个暂存：" (stashChoices stashes) 0 ;;
      if String.eqb selected "__cancel__" then ret tt
      else if String.eqb selected "__clear__" then clearAllStashes
      else operateOnStash budget selected
  end.

Definition viewStashList : M unit :=
  console_log (Js.nl ++ "📋 Stash 列表" ++ Js.nl) ;;
  stashes <- getStashList ;;
  match stashes with
  | [] => console_log ("ℹ️  当前没有任何暂存" ++ Js.nl)
  | _ =>
      console_log ("共有 " ++ Js.show_nat (length stashes) ++ " 个暂存：" ++ Js.nl) ;;
      console_log (Js.repeat "─" 80) ;;
      for_each_i 0 stashes (fun index stash =>
        console_log (Js.padStart (Js.show_nat index) 3 ++ ". " ++ Js.padEnd (ref stash) 12 ++
             " " ++ Js.str (message stash)) ;;
        console_log ("     " ++ Js.str (time stash)) ;;
        console_log (Js.repeat "─" 80)) ;;
      console_log EmptyString
  end.

Definition dispatch (budget : nat) (action : string) : M unit :=
  if String.eqb action "stash" then stashChanges
  else if String.eqb action "manage" then manageStashes budget
  else if String.eqb action "list" then viewStashList
  else if String.eqb action "cancel" then console_log (Js.nl ++ "已退出" ++ Js.nl)
  else ret tt.

Definition main_within (budget : nat) : M unit :=
  repo <- isGitRepo ;;
  (if negb repo then console_error NOT_A_REPO ;; exit 1 else ret tt) ;;
  console_log (Js.nl ++ "🗂️  Git Stash 管理器" ++ Js.nl) ;;
  branch <- getCurrentBranch ;;
  status <- getWorkingStatus ;;
  stashes <- getStashList ;;
  console_log "📊 当前状态：" ;;
  (match branch with
   | Some b => if Js.truthy b then console_log ("  • 分支：" ++ b) else ret tt
   | None => ret tt
   end) ;;
  (if Nat.ltb 0 (modified status)
   then console_log ("  • 工作区：" ++ Js.show_nat (modified status) ++ " 个文件已修改")
   else ret tt) ;;
  (if Nat.ltb 0 (staged status)
   then console_log ("  • 暂存区：" ++ Js.show_nat (staged status) ++ " 个文件已暂存")
   else ret tt) ;;
  (if Nat.ltb 0 (untracked status)
   then console_log ("  • 未跟踪：" ++ Js.show_nat (untracked status) ++ " 个文件")
   else ret tt) ;;
  console_log ("  • Stash 数量：" ++ Js.show_nat (length stashes) ++ " 个") ;;
  console_log EmptyString ;;
  changes <- hasChanges ;;
  match mainChoices changes stashes with
  | [] =>
      console_log NOTHING_TO_DO ;;
      console_log ("💡 提示：当你有未提交的修改时，可以使用此命令暂存它们" ++ Js.nl)
  | choices =>
      try_catch
        (action <- select "请选择要执行的操作："
                     (choices ++ [choice "cancel" "❌ 退出"]) 0 ;;
         dispatch budget action)
        (fun err =>
           match err with
           | ECancel => console_log CANCELLED ;; exit 0
           | _ =>
               console_error (Js.nl ++ "操作出错：" ++ " " ++ error_text err) ;;
               exit 1
           end)
  end.

(** Every nested call answers two prompts first, so the operator's
    remaining actions bound the nesting. *)
Definition main : M unit :=
  fun w ks => main_within (S (length ks)) w ks.

End Tool.

End Stash.

(* ================================================================== *)
(** ** scripts/bd.js: deleting branches                                *)
(* ================================================================== *)

Module Bd.

(** An entry of [fail]: [{ name, error }]. *)
Record Failure : Type := mkFailure {
  name : string;
  error : string
}.

Definition ALL : string := "__all__".

(** [`${current}`] where [current] may be [null]. *)
Definition shown (current : option string) : string :=
  match current with Some s => s | None => "null" end.

(** [out.split(/\r?\n/).map(s => s.trim()).filter(Boolean)] *)
Definition refLines (out : string) : list string :=
  Js.nonempty (map Js.trim (Js.split_crlf out)).

(** [getLocalBranches().filter(b => b !== current)] *)
Definition deletable (current : option string) (branches : list string)
  : list string :=
  filter (fun b => match current with
                   | Some c => negb (String.eqb b c)
                   | None => true
                   end) branches.

(** [if (selected.includes('__all__')) selected = all.slice();
     else selected = selected.filter(s => s !== '__all__');] *)
Definition expandSelection (all selected : list string) : list string :=
  if Js.mem ALL selected then all
  else filter (fun s => negb (String.eqb s ALL)) selected.

Definition branchChoices (head : string) (items : list string) : list Choice :=
  choice ALL head :: map (fun b => choice b b) items.

(** [r.stderr || r.stdout || fallback] *)
Definition diagnosis (r : Completed) (fallback : string) : string :=
  Js.or_else (stderr r) (Js.or_else (stdout r) fallback).

(** [ref.indexOf('/')], [ref.slice(0, idx)], [ref.slice(idx + 1)] *)
Fixpoint splitRemote (ref : string) : option (string * string) :=
  match ref with
  | EmptyString => None
  | String c r =>
      if Ascii.eqb c "/"%char then Some (EmptyString, r)
      else match splitRemote r with
           | Some (remote, branch) => Some (String c remote, branch)
           | None => None
           end
  end.

(** The remote refs that end in [/b] for a deleted branch [b]. *)
Definition remoteCandidates (remoteRefs deletedLocal : list string) : list string :=
  filter (fun r => existsb (fun b => Js.endsWith r ("/" ++ b)) deletedLocal)
         remoteRefs.

(** [console.log(' ❌', f.name, ' — ', f.error.toString().trim())] *)
Definition failed_line (f : Failure) : string :=
  " ❌" ++ " " ++ name f ++ " " ++ " — " ++ " " ++ Js.trim (error f).

Definition CANCELLED : string := Js.nl ++ "已取消。".

Section Tool.
Context {SH : Shell}.

Definition run (cmd : string) : M string :=
  out <- execSync cmd ;; ret (Js.trim out).

Definition getCurrentBranch : M (option string) :=
  try_catch (b <- run "git rev-parse --abbrev-ref HEAD" ;; ret (Some b))
            (fun _ => ret None).

Definition getLocalBranches : M (list string) :=
  try_catch
    (out <- run "git for-each-ref --format='%(refname:short)' refs/heads" ;;
     ret (refLines out))
    (fun _ => ret []).

Definition getRemoteBranches : M (list string) :=
  try_catch
    (out <- run "git for-each-ref --format='%(refname:short)' refs/remotes" ;;
     ret (refLines out))
    (fun _ => ret []).

(** The loop shared by [deleteLocalBranches] ([-d]) and
    [forceDeleteLocalBranches] ([-D]). *)
Fixpoint deleteWith (flag fallback : string) (branches : list string)
  : M (list string * list Failure) :=
  match branches with
  | [] => ret ([], [])
  | b :: rest =>
      r <- spawnSync "git" ["branch"; flag; b] Pipe ;;
      res <- deleteWith flag fallback rest ;;
      let '(succ, fail) := res in
      if succeeded r then ret (b :: succ, fail)
      else ret (succ, mkFailure b (diagnosis r fallback) :: fail)
  end.

Definition deleteLocalBranches : list string -> M (list string * list Failure) :=
  deleteWith "-d" "删除失败".

Definition forceDeleteLocalBranches : list string -> M (list string * list Failure) :=
  deleteWith "-D" "强制删除失败".

Fixpoint deleteRemoteBranches (remoteRefs : list string)
  : M (list string * list Failure) :=
  match remoteRefs with
  | [] => ret ([], [])
  | ref :: rest =>
      match splitRemote ref with
      | None =>
          res <- deleteRemoteBranches rest ;;
          let '(succ, fail) := res in
          ret (succ, mkFailure ref "无法解析 remote/branch" :: fail)
      | Some (remote, branch) =>
          r <- spawnSync "git" ["push"; remote; "--delete"; branch] Pipe ;;
          res <- deleteRemoteBranches rest ;;
          let '(succ, fail) := res in
          if succeeded r then ret (ref :: succ, fail)
          else ret (succ, mkFailure ref (diagnosis r "删除远程分支失败") :: fail)
      end
  end.

(** [try { x = await ms.run() } catch (e) { ... process.exit(1) }] *)
Definition orCancel {A : Type} (said : string) (m : M A) : M A :=
  try_catch m (fun e =>
    match e with
    | ECancel => console_log said ;; exit 1
    | _ => console_error ("操作出错：" ++ " " ++ error_text e) ;; exit 1
    end).

Definition report (head : string) (mark : string) (l : list string) : M unit :=
  match l with
  | [] => ret tt
  | _ => console_log head ;; for_each l (fun b => console_log (mark ++ " " ++ b))
  end.

Definition reportFailures (head : string) (l : list Failure) : M unit :=
  match l with
  | [] => ret tt
  | _ => console_log head ;; for_each l (fun f => console_log (failed_line f))
  end.

(** The remote half of [main], from the question whether to go on. *)
Definition deleteRemotes (deletedLocal : list string) : M unit :=
  askRemote <- confirm ("是否要继续删除与已删除本地分支对应的远程分支？ (" ++
                        Js.show_nat (length deletedLocal) ++ " 个，Ctrl+C 可取消)")
                       false ;;
  if negb askRemote then console_log "已完成本地删除，未进行远程删除。" ;; exit 0
  else
    remoteRefs <- getRemoteBranches ;;
    let uniqCandidates := Js.uniq (remoteCandidates remoteRefs deletedLocal) in
    match uniqCandidates with
    | [] => console_log "没有发现对应的远程分支可删除（基于 refs 列表匹配）。" ;; exit 0
    | _ =>
        remoteSelected <-
          orCancel (Js.nl ++ "已取消远程删除。")
            (multiSelect "请选择要删除的远程分支（多选，空格选择，回车确认，Ctrl+C 取消）："
               (branchChoices "🔘 全选（选择此项代表选择所有远程分支）" uniqCandidates)) ;;
        let remoteSelected := expandSelection uniqCandidates remoteSelected in
        match remoteSelected with
        | [] => console_log "未选择任何远程分支，操作结束。" ;; exit 0
        | _ =>
            console_log (Js.nl ++ "开始删除远程分支：") ;;
            res <- deleteRemoteBranches remoteSelected ;;
            let '(remoteSucc, remoteFail) := res in
            report (Js.nl ++ "远程删除成功：") " ✅" remoteSucc ;;
            reportFailures (Js.nl ++ "远程删除失败：") remoteFail ;;
            console_log (Js.nl ++ "操作完成。") ;;
            exit 0
        end
    end.

Definition main : M unit :=
  try_catch (_ <- run "git rev-parse --is-inside-work-tree" ;; ret tt)
            (fun _ => console_error NOT_A_REPO ;; exit 1) ;;
  current <- getCurrentBranch ;;
  branches <- getLocalBranches ;;
  let localBranches := deletable current branches in
  match localBranches with
  | [] => console_log "没有可删除的本地分支（除了当前分支）。" ;; exit 0
  | _ =>
      selected <-
        orCancel CANCELLED
          (multiSelect
             ("请选择要删除的本地分支（当前分支：" ++ shown current ++
              "，不能删除当前分支）。按空格选择，回车确认，Ctrl+C 取消：")
             (branchChoices "🔘 全选（选择此项代表选择所有分支）" localBranches)) ;;
      let selected := expandSelection localBranches selected in
      match selected with
      | [] => console_log "未选择任何分支，已取消。" ;; exit 0
      | _ =>
          console_log "即将删除以下本地分支：" ;;
          for_each selected (fun b => console_log (" -" ++ " " ++ b)) ;;
          c1 <- confirm "确认要删除上述本地分支吗？（这会尝试安全删除：git branch -d，Ctrl+C 可取消）"
                        true ;;
          if negb c1 then console_log "取消删除。" ;; exit 0
          else
            res <- deleteLocalBranches selected ;;
            let '(succ, fail) := res in
            report (Js.nl ++ "已成功删除（本地）：") " ✅" succ ;;
            succ2 <-
              match fail with
              | [] => ret []
              | _ =>
                  console_log (Js.nl ++ "无法安全删除（可能未合并或有未保存更改）：") ;;
                  for_each fail (fun f => console_log (failed_line f)) ;;
                  force <- confirm "是否对上述失败的分支执行强制删除 (git branch -D)？（Ctrl+C 可取消）"
                                   false ;;
                  if force then
                    res2 <- forceDeleteLocalBranches (map name fail) ;;
                    let '(succ2, fail2) := res2 in
                    report (Js.nl ++ "强制删除成功：") " ✅" succ2 ;;
                    reportFailures (Js.nl ++ "强制删除失败：") fail2 ;;
                    ret succ2
                  else ret []
              end ;;
            let deletedLocal := (succ ++ succ2)%list in
            match deletedLocal with
            | [] => console_log (Js.nl ++ "没有本地分支被删除，跳过远程删除。") ;; exit 0
            | _ => deleteRemotes deletedLocal
            end
      end
  end.

(** [main().catch(e => { console.error('致命错误：', ...); process.exit(1) })] *)
Definition script : M unit :=
  try_catch main
    (fun e => console_error ("致命错误：" ++ " " ++ error_text e) ;; exit 1).

End Tool.

End Bd.

(* ================================================================== *)
(** ** The thin wrappers: p, b, l, push                                *)
(* ================================================================== *)

(** [process.exit(result.status || 0)]; a [null] status exits with 0. *)
Definition exit_with {SH : Shell} {A : Type} (r : Completed) : M A :=
  exit (match status r with Some code => code | None => 0%Z end).

Module P.
Section Tool.
Context {SH : Shell}.

Definition isGitRepo : M bool :=
  result <- spawnSync "git" ["rev-parse"; "--is-inside-work-tree"] Pipe ;;
  ret (succeeded result).

Definition main : M unit :=
  repo <- isGitRepo ;;
  (if negb repo then console_error NOT_A_REPO ;; exit 1 else ret tt) ;;
  console_log ("🔄 正在执行 git pull..." ++ Js.nl) ;;
  result <- spawnSync "git" ["pull"] Inherit ;;
  exit_with result.

End Tool.
End P.

Module B.
Section Tool.
Context {SH : Shell}.

Definition isGitRepo : M bool :=
  result <- spawnSync "git" ["rev-parse"; "--is-inside-work-tree"] Pipe ;;
  ret (succeeded result).

Definition main : M unit :=
  repo <- isGitRepo ;;
  (if negb repo then console_error NOT_A_REPO ;; exit 1 else ret tt) ;;
  console_log ("📋 Git 分支列表:" ++ Js.nl) ;;
  result <- spawnSync "git" ["branch"] Inherit ;;
  exit_with result.

End Tool.
End B.

Module L.
Section Tool.
Context {SH : Shell}.

Definition isGitRepo : M bool :=
  result <- spawnSync "git" ["rev-parse"; "--is-inside-work-tree"] Pipe ;;
  ret (succeeded result).

(** [userArgs] is [process.argv.slice(2)]. *)
Definition main (userArgs : list string) : M unit :=
  repo <- isGitRepo ;;
  (if negb repo then console_error NOT_A_REPO ;; exit 1 else ret tt) ;;
  let args := ["log"; "--oneline"; "--decorate"; "--graph"; "--color"; "-20"] in
  match userArgs with
  | _ :: _ =>
      result <- spawnSync "git" ("log" :: userArgs) Inherit ;;
      exit_with result
  | [] =>
      result <- spawnSync "git" args Inherit ;;
      exit_with result
  end.

End Tool.
End L.

Module Push.
Section Tool.
Context {SH : Shell}.

Definition isGitRepo : M bool :=
  result <- spawnSync "git" ["rev-parse"; "--is-inside-work-tree"] Pipe ;;
  ret (succeeded result).

Definition getCurrentBranch : M string :=
  result <- spawnSync "git" ["branch"; "--show-current"] Pipe ;;
  ret (Js.trim (stdout result)).

Definition main : M unit :=
  repo <- isGitRepo ;;
  (if negb repo then console_error NOT_A_REPO ;; exit 1 else ret tt) ;;
  console_log ("🚀 正在执行 git push..." ++ Js.nl) ;;
  result <- spawnSync "git" ["push"] Inherit ;;
  if negb (succeeded result) then
    checkResult <- spawnSync "git" ["push"] Pipe ;;
    let errorOutput := stderr checkResult in
    if Js.includes errorOutput "has no upstream branch" then
      currentBranch <- getCurrentBranch ;;
      if Js.truthy currentBranch then
        console_log (Js.nl ++ "📝 检测到新分支，正在设置 upstream 并推送...") ;;
        console_log ("   分支: " ++ currentBranch ++ Js.nl) ;;
        upstreamResult <-
          spawnSync "git" ["push"; "--set-upstream"; "origin"; currentBranch] Inherit ;;
        exit_with upstreamResult
      else
        console_error "❌ 无法获取当前分支名" ;;
        exit 1
    else exit_with result
  else exit 0.

End Tool.
End Push.

(* ================================================================== *)
(** ** ck: switching and creating branches                             *)
(* ================================================================== *)

Module Ck.

Record Branch : Type := mkBranch {
  name : string;
  isCurrent : bool
}.

(** [{ isCurrent: l.trim().startsWith('*'), name: l.replace(/^[\*\s]+/, '') }] *)
Definition parseBranchLine (l : string) : Branch :=
  mkBranch (Js.strip_branch_marks l) (Js.startsWith (Js.trim l) "*").

Definition branchChoices (branches : list Branch) : list Choice :=
  map (fun b =>
         choice (name b)
                (if isCurrent b then "* " ++ name b ++ "（当前分支）" else name b))
      branches.

(** [branches.findIndex(b => b.isCurrent)], with [-1] read as [0]. *)
Fixpoint currentIndex (branches : list Branch) : option nat :=
  match branches with
  | [] => None
  | b :: r =>
      if isCurrent b then Some 0
      else match currentIndex r with Some i => Some (S i) | None => None end
  end.

Definition initialIndex (branches : list Branch) : nat :=
  match currentIndex branches with Some i => i | None => 0 end.

Section Tool.
Context {SH : Shell}.

Definition getBranches : M (option (list Branch)) :=
  try_catch
    (out <- execSync "git branch --no-color" ;;
     ret (Some (map parseBranchLine (Js.nonempty (Js.split_crlf out)))))
    (fun _ => ret None).

Definition getCurrentBranch : M (option string) :=
  try_catch (out <- execSync "git branch --show-current" ;; ret (Some (Js.trim out)))
            (fun _ => ret None).

Definition runGitCommand (args : list string) : M bool :=
  result <- spawnSync "git" args Inherit ;;
  ret (succeeded result).

Definition switchBranch (branch : string) : M bool :=
  ok <- runGitCommand ["switch"; branch] ;;
  if negb ok then runGitCommand ["checkout"; branch] else ret true.

Definition interactiveSwitch : M unit :=
  branches <- getBranches ;;
  match branches with
  | None => console_error NOT_A_REPO ;; exit 1
  | Some branches =>
      branch <- select "请选择要切换的分支（上下键选择，回车确认）"
                       (branchChoices branches) (initialIndex branches) ;;
      let current := option_map name (find isCurrent branches) in
      if match current with Some c => String.eqb branch c | None => false end
      then console_log ("✅ 已在分支：" ++ branch)
      else
        console_log ("🔁 正在切换到分支：" ++ branch ++ " ...") ;;
        ok <- switchBranch branch ;;
        if ok then console_log ("🎉 已切换到分支：" ++ branch)
        else console_error "❌ 切换失败，请检查是否有未提交的更改。"
  end.

Definition createAndSwitch (newBranch : string) : M unit :=
  currentBranch <- getCurrentBranch ;;
  let from :=
    match currentBranch with
    | Some b => if Js.truthy b then Some b else None
    | None => None
    end in
  (match from with
   | Some b =>
       console_log ("🚀 正在从分支「" ++ b ++ "」创建并切换到新分支：" ++
                    newBranch ++ " ...")
   | None => console_log ("🚀 正在创建并切换到新分支：" ++ newBranch ++ " ...")
   end) ;;
  ok <- runGitCommand ["checkout"; "-b"; newBranch] ;;
  if ok then
    match from with
    | Some b =>
        console_log ("🎉 已从分支「" ++ b ++ "」创建并切换到新分支：" ++ newBranch)
    | None => console_log ("🎉 新分支已创建并切换到：" ++ newBranch)
    end
  else console_error "❌ 创建分支失败，可能分支已存在或有未提交更改。".

(** [args] is [process.argv.slice(2)]. *)
Definition main (args : list string) : M unit :=
  match args with
  | newBranch :: _ => createAndSwitch newBranch
  | [] => interactiveSwitch
  end.

End Tool.
End Ck.

(* ================================================================== *)
(** ** c (gcb.js): copying a branch name to the clipboard              *)
(* ================================================================== *)

Module Gcb.

(** [process.platform], as far as the script tells values apart. *)
Inductive Platform : Type := darwin | win32 | other.

Definition NO_REPO : string :=
  "错误：当前目录不是 git 仓库，或 git 命令执行失败。请在一个 git 仓库目录下运行此命令。".

Definition CANCELLED : string := Js.nl ++ "已取消。".

Section Tool.
Context {SH : Shell}.

Definition getBranches : M (option (list Ck.Branch)) :=
  try_catch
    (out <- execSync "git branch --no-color" ;;
     let lines := Js.nonempty (map Js.strip_cr_end (Js.split Js.LF out)) in
     match lines with
     | [] => ret None
     | _ => ret (Some (map Ck.parseBranchLine lines))
     end)
    (fun _ => ret None).

Definition copyToClipboardSync (platform : Platform) (text : string) : M bool :=
  match platform with
  | darwin => _ <- invoke (SpawnInput "pbcopy" [] text) ;; ret true
  | win32 => _ <- invoke (SpawnInput "clip" [] text) ;; ret true
  | other =>
      tryXclip <- invoke (SpawnInput "xclip" ["-selection"; "clipboard"] text) ;;
      if succeeded tryXclip then ret true
      else
        tryXsel <- invoke (SpawnInput "xsel" ["--clipboard"; "--input"] text) ;;
        ret (succeeded tryXsel)
  end.

Definition main (platform : Platform) : M unit :=
  branches <- getBranches ;;
  match branches with
  | None => console_error NO_REPO ;; exit 1
  | Some branches =>
      try_catch
        (answer <- select "请选择要复制的本地分支（上下键选择，回车确认，Ctrl+C 退出）"
                     (Ck.branchChoices branches) (Ck.initialIndex branches) ;;
         ok <- copyToClipboardSync platform answer ;;
         if ok then console_log ("已复制分支名：" ++ answer)
         else console_log ("无法写入剪贴板。分支名为：" ++ answer))
        (fun err =>
           match err with
           | ECancel => console_log CANCELLED ;; exit 1
           | _ =>
               console_error ("操作被取消或发生错误：" ++ " " ++ error_text err) ;;
               exit 1
           end)
  end.

End Tool.
End Gcb.

(* ================================================================== *)
(** ** All the tools, and what an observer reads off a run             *)
(* ================================================================== *)

Inductive Tool : Type :=
| ToolRes
| ToolStash
| ToolBd
| ToolP
| ToolB
| ToolL (userArgs : list string)
| ToolPush
| ToolCk (args : list string)
| ToolC (platform : Gcb.Platform).

Definition launch {SH : Shell} (t : Tool) : M unit :=
  match t with
  | ToolRes => Res.main
  | ToolStash => Stash.main
  | ToolBd => Bd.script
  | ToolP => P.main
  | ToolB => B.main
  | ToolL userArgs => L.main userArgs
  | ToolPush => Push.main
  | ToolCk args => Ck.main args
  | ToolC platform => Gcb.main platform
  end.

(** The commands handed to the Shell Executor, in order. *)
Definition commands (t : list Event) : list Cmd :=
  flat_map (fun e => match e with Ran c _ => [c] | _ => [] end) t.

(** The prompts rendered, in order. *)
Definition prompts (t : list Event) : list Prompt :=
  flat_map (fun e => match e with Asked p => [p] | _ => [] end) t.

(** What a child process writes to the terminal itself: the stderr of
    an [execSync] line, everything of a child started with
    [stdio: 'inherit'] (its stdout is listed first; how the two streams
    interleave is not observed). *)
Definition passed (c : Cmd) (r : Completed) : list string :=
  match c with
  | ExecSync _ => Js.nonempty [stderr r]
  | SpawnSync _ _ Inherit => Js.nonempty [stdout r; stderr r]
  | _ => []
  end.

(** What reaches the terminal, in order: the lines of [console.log] and
    [console.error], and what the children pass through. *)
Definition printed (t : list Event) : list string :=
  flat_map (fun e => match e with
                     | Out s | Err s => [s]
                     | Ran c r => passed c r
                     | _ => []
                     end) t.

Definition is_interrupt (e : Event) : bool :=
  match e with Got CtrlC => true | _ => false end.

(** The operator interrupted a prompt somewhere in the run. *)
Definition cancelled (t : list Event) : bool := existsb is_interrupt t.

(** The git commands that change the repository: reset, the stash
    operations that move changes, branch deletion, push, pull and the
    checkouts.  The others are the Git Inspector's queries, [git fetch]
    among them. *)
Definition mutating (c : Cmd) : bool :=
  match c with
  | SpawnSync "git" ("reset" :: _) _ => true
  | SpawnSync "git" ("stash" :: sub :: _) _ =>
      Js.mem sub ["push"; "pop"; "apply"; "drop"; "clear"]
  | SpawnSync "git" ("branch" :: flag :: _) _ => Js.mem flag ["-d"; "-D"]
  | SpawnSync "git" ("push" :: _) _ => true
  | SpawnSync "git" ("pull" :: _) _ => true
  | SpawnSync "git" ("checkout" :: _) _ => true
  | SpawnSync "git" ("switch" :: _) _ => true
  | _ => false
  end.

Definition mutations (t : list Event) : list Cmd :=
  filter mutating (commands t).

(** The three ways the scripts ask whether they are inside a repository. *)
Definition PROBE : Cmd :=
  SpawnSync "git" ["rev-parse"; "--is-inside-work-tree"] Pipe.
Definition PROBE_LINE : Cmd := ExecSync "git rev-parse --is-inside-work-tree".
Definition PROBE_BRANCHES : Cmd := ExecSync "git branch --no-color".

(** Outside a repository each of them fails. *)
Definition outside_repo {SH : Shell} (w : World) : Prop :=
  succeeded (fst (sh PROBE w)) = false /\
  succeeded (fst (sh PROBE_LINE w)) = false /\
  succeeded (fst (sh PROBE_BRANCHES w)) = false.

(* ================================================================== *)
(** ** Machines to run the tools on                                    *)
(* ================================================================== *)

Definition ok (text : string) : Completed := mkCompleted (Some 0%Z) text EmptyString.
Definition failed (code : Z) (why : string) : Completed :=
  mkCompleted (Some code) EmptyString why.

Fixpoint args_eqb (x y : list string) : bool :=
  match x, y with
  | [], [] => true
  | a :: x', b :: y' => String.eqb a b && args_eqb x' y'
  | _, _ => false
  end.

Definition cmd_eqb (a b : Cmd) : bool :=
  match a, b with
  | ExecSync x, ExecSync y => String.eqb x y
  | SpawnSync f x Pipe, SpawnSync g y Pipe
  | SpawnSync f x Inherit, SpawnSync g y Inherit =>
      String.eqb f g && args_eqb x y
  | SpawnInput f x i, SpawnInput g y j =>
      String.eqb f g && args_eqb x y && String.eqb i j
  | _, _ => false
  end.

(** A machine that answers from a table and never changes. *)
Definition scripted (table : list (Cmd * Completed)) (otherwise : Completed)
  : Shell :=
  {| World := unit;
     sh c w :=
       (match find (fun row => cmd_eqb (fst row) c) table with
        | Some row => snd row
        | None => otherwise
        end, w) |}.

(** A directory that is no repository: git refuses everything. *)
Definition nowhere : Shell :=
  scripted [] (failed 128 "fatal: not a git repository (or any of the parent directories): .git").

(** A repository on [main] with a second branch [feature], two staged
    files and three commits; every other command succeeds silently. *)
Definition sandbox : Shell :=
  scripted
    [ (PROBE, ok ("true" ++ Js.nl));
      (PROBE_LINE, ok ("true" ++ Js.nl));
      (PROBE_BRANCHES, ok ("  feature" ++ Js.nl ++ "* main" ++ Js.nl));
      (ExecSync "git branch --show-current", ok ("main" ++ Js.nl));
      (ExecSync "git rev-parse --abbrev-ref HEAD", ok ("main" ++ Js.nl));
      (ExecSync "git for-each-ref --format='%(refname:short)' refs/heads",
       ok ("feature" ++ Js.nl ++ "main" ++ Js.nl));
      (ExecSync "git diff --cached --name-status",
       ok ("M" ++ Js.tab ++ "a.txt" ++ Js.nl ++ "A" ++ Js.tab ++ "b.txt" ++ Js.nl));
      (ExecSync "git config branch.main.remote", ok ("origin" ++ Js.nl));
      (ExecSync "git config branch.main.merge", ok ("refs/heads/main" ++ Js.nl));
      (ExecSync "git rev-list --count origin/main..HEAD", ok ("0" ++ Js.nl));
      (ExecSync "git rev-list --count HEAD..origin/main", ok ("0" ++ Js.nl));
      (SpawnSync "git" ["reset"; "HEAD"; "b.txt"] Pipe, failed 1 "error") ]
    (ok EmptyString).

(** A repository whose only moving part is its stash: [World] is the
    list of stashed messages, newest first. *)
Definition stash_lines (l : list string) : string :=
  (fix go (i : nat) (l : list string) : string :=
     match l with
     | [] => EmptyString
     | m :: r =>
         "stash@{" ++ Js.show_nat i ++ "}|" ++ m ++ "|2 hours ago" ++
         match r with [] => EmptyString | _ => Js.nl ++ go (S i) r end
     end) 0 l.

Definition stash_box : Shell :=
  {| World := list string;
     sh c w :=
       match c with
       | ExecSync line =>
           if String.eqb line Stash.STASH_LIST then (ok (stash_lines w), w)
           else if String.prefix "git stash list | grep" line
                then (ok (hd EmptyString w), w)
           else if String.eqb line "git diff --name-only"
                then (ok ("a.txt" ++ Js.nl), w)
           else (ok EmptyString, w)
       | SpawnSync "git" ("stash" :: "pop" :: _) _ => (ok EmptyString, tl w)
       | SpawnSync "git" ("stash" :: "drop" :: _) _ => (ok EmptyString, tl w)
       | SpawnSync "git" ["stash"; "clear"] _ => (ok EmptyString, [])
       | SpawnSync "git" ("stash" :: "push" :: "-m" :: m :: _) _ =>
           (ok EmptyString, ("On main: " ++ m) :: w)
       | SpawnSync "git" ("stash" :: "push" :: _) _ =>
           (ok EmptyString, "WIP on main" :: w)
       | _ => (ok EmptyString, w)
       end |}.

(* ================================================================== *)
(** ** Reasoning about runs                                            *)
(* ================================================================== *)

Open Scope list_scope.

(** A run with more events in front. *)
Definition after {SH : Shell} {A : Type} (t : list Event) (r : Run A) : Run A :=
  mkRun (outcome r) (world r) (keys r) (t ++ trace r).

(** Every event of every run of [m] passes the test [p]. *)
Definition only {SH : Shell} {A : Type} (p : Event -> bool) (m : M A) : Prop :=
  forall w ks, forallb p (trace (m w ks)) = true.

(** No command that changes the repository. *)
Definition calm (e : Event) : bool :=
  match e with Ran c _ => negb (mutating c) | _ => true end.

(** No prompt and no key. *)
Definition silent (e : Event) : bool :=
  match e with Asked _ | Got _ | Refused _ => false | _ => true end.

(** An interrupt, if there is one, is the last thing that happened in
    [m]: it is thrown, and nothing was changed before it. *)
Definition abortable {SH : Shell} {A : Type} (m : M A) : Prop :=
  forall w ks,
    cancelled (trace (m w ks)) = true ->
    outcome (m w ks) = Thrown ECancel /\
    mutations (trace (m w ks)) = [] /\
    exists t0, trace (m w ks) = t0 ++ [Got CtrlC].

(** What [bind] and [try_catch] do with the run of their first part. *)
Definition andThen {SH : Shell} {A B : Type} (f : A -> M B) (r : Run A) : Run B :=
  match outcome r with
  | Done a => after (trace r) (f a (world r) (keys r))
  | o => mkRun (cast o Waiting) (world r) (keys r) (trace r)
  end.

Definition recover {SH : Shell} {A : Type} (h : Error -> M A) (r : Run A) : Run A :=
  match outcome r with
  | Thrown e => after (trace r) (h e (world r) (keys r))
  | _ => r
  end.

(** The probe each tool starts with, and what it prints when the probe
    fails.  [ck] given a branch name goes straight to [git checkout -b]. *)
Definition probe_of (t : Tool) : Cmd :=
  match t with
  | ToolBd => PROBE_LINE
  | ToolCk _ | ToolC _ => PROBE_BRANCHES
  | _ => PROBE
  end.

Definition complaint (t : Tool) : string :=
  match t with ToolC _ => Gcb.NO_REPO | _ => NOT_A_REPO end.

Definition probes (t : Tool) : bool :=
  match t with ToolCk (_ :: _) => false | _ => true end.

(** The status the process ends with: 0 when the script runs to its
    end, the argument of [process.exit], 1 when an exception or a
    rejected promise is left unhandled (Node prints it and exits);
    none while the process is still waiting at a prompt. *)
Definition exit_code {A : Type} (o : Outcome A) : option Z :=
  match o with
  | Done _ => Some 0%Z
  | Exited code => Some code
  | Thrown _ => Some 1%Z
  | Waiting | Unfinished => None
  end.

(** Printing, and the Git Inspector's queries: what the helpers that
    read the repository do, and all they do. *)
Definition inspecting (e : Event) : bool :=
  match e with
  | Out _ | Err _ => true
  | Ran (ExecSync _) _ => true
  | Ran (SpawnSync "git" ("rev-parse" :: _) _) _ => true
  | Ran (SpawnSync "git" ("fetch" :: _) _) _ => true
  | Ran (SpawnSync "git" ("stash" :: "show" :: _) _) _ => true
  | _ => false
  end.

(** The command that takes one file out of the index. *)
Definition reset_file (f : option string) : Cmd :=
  SpawnSync "git" ["reset"; "HEAD"; Js.str f] Pipe.

(** What the unstage loop leaves in the trace: for every selected file,
    in order, the command and the line that reports how it went. *)
Fixpoint unstage_report (selected : list (option string)) (results : list Completed)
  : list Event :=
  match selected, results with
  | f :: fs, r :: rs =>
      Ran (SpawnSync "git" ["reset"; "HEAD"; Js.str f] Pipe) r ::
      Out (if succeeded r then Res.unstaged_ok f else Res.unstaged_failed f) ::
      unstage_report fs rs
  | _, _ => []
  end.

(** The entries of the unstage menu all carry a path. *)
Definition well_named (staged : list Res.StagedFile) : Prop :=
  Forall (fun item => exists f, Res.file item = Some f /\ f <> EmptyString) staged.

(** What [getStagedFiles] finds in the [sandbox]. *)
Definition sandbox_staged : list Res.StagedFile :=
  [ Res.mkStaged (Some "a.txt") "M" "modified";
    Res.mkStaged (Some "b.txt") "A" "new file" ].

(** The ways the operator settles the number of commits in the rewind
    flow: one of the four presets, or "custom" and a typed line. *)
Definition chooses (ks : list Key) (count : string) : Prop :=
  (exists i, ks = [Pick i] /\ nth_error ["1"; "2"; "3"; "5"] i = Some count) \/
  ks = [Pick 4; Line count].

(** The counts the rewind flow accepts. *)
Definition counts : list Z := map Z.of_nat (seq 1 99).

Definition rewind (mode : string) (target : string) : Cmd :=
  SpawnSync "git" ["reset"; "--" ++ mode; target]%string Inherit.

(** The confirmation a hard rewind asks for, and what the prompt answers
    to any line but the token. *)
Definition CONFIRM_HARD : string :=
  "请输入 " ++ Js.dq ++ "yes" ++ Js.dq ++ " 确认执行 hard reset：".

Definition SAY_YES : string := "请输入 " ++ Js.dq ++ "yes" ++ Js.dq ++ " 确认".

(** The line a key submits to an Input prompt. *)
Definition line_of (k : Key) : option string :=
  match k with
  | Line s => Some s
  | Enter => Some EmptyString
  | _ => None
  end.

(** A submitted line that is not the token. *)
Definition other_line (k : Key) : Prop :=
  exists s, line_of k = Some s /\ s <> "yes".

(** What an Input prompt leaves in the trace for the lines it refuses. *)
Definition refusals (why : string) (ks : list Key) : list Event :=
  flat_map (fun k => [Got k; Refused why]) ks.

(** [t] ends with the confirmation of a hard rewind, answered with the
    token after refused lines only. *)
Definition confirmed (t : list Event) : Prop :=
  exists t0 refused,
    t = t0 ++ Asked (Input CONFIRM_HARD) ::
              refusals SAY_YES refused ++ [Got (Line "yes")] /\
    Forall other_line refused.

Definition hard_reset (c : Cmd) : bool :=
  match c with
  | SpawnSync f [a; b; _] _ =>
      String.eqb f "git" && String.eqb a "reset" && String.eqb b "--hard"
  | _ => false
  end.

(** No hard reset. *)
Definition gentle (e : Event) : bool :=
  match e with Ran c _ => negb (hard_reset c) | _ => true end.

(** Whatever is not [gentle] in a run of [m] comes right after the
    confirmation. *)
Definition guarded {SH : Shell} {A : Type} (m : M A) : Prop :=
  forall w ks t1 x t2,
    gentle x = false -> trace (m w ks) = t1 ++ x :: t2 -> confirmed t1.

(** [r'] is the run [r] with the events [ins] put in after [a], and
    nothing else changed. *)
Definition spliced {SH : Shell} {A : Type} (a ins : list Event) (r r' : Run A) : Prop :=
  outcome r' = outcome r /\ world r' = world r /\ keys r' = keys r /\
  exists b, trace r = a ++ b /\ trace r' = a ++ ins ++ b.

(** [m] is a query: wherever it runs it returns, it has only inspected,
    and nothing of it depends on the operator. *)
Definition query {SH : Shell} {A : Type} (m : M A) : Prop :=
  forall w, exists a w' t,
    forallb inspecting t = true /\
    forall ks, m w ks = mkRun (Done a) w' ks t.

(** What [Stash.main] reads from the repository before it builds its
    menu, query after query: the stash list, and whether there are
    changes. *)
Definition stash_survey {SH : Shell} : M (list Stash.StashEntry * bool) :=
  _ <- Stash.isGitRepo ;;
  _ <- Stash.getCurrentBranch ;;
  _ <- Stash.getWorkingStatus ;;
  stashes <- Stash.getStashList ;;
  changes <- Stash.hasChanges ;;
  ret (stashes, changes).

Definition STASH_MENU : string := "请选择要执行的操作：".
Definition STASH_HINT : string :=
  "💡 提示：当你有未提交的修改时，可以使用此命令暂存它们" ++ Js.nl.

(** The entries [Stash.getStashList] reads from the answer to its query. *)
Definition stash_entries (q : Completed) : list Stash.StashEntry :=
  let output := if succeeded q then Js.trim (stdout q) else EmptyString in
  if Js.truthy output
  then map Stash.parseStashLine (Js.split Js.LF output)
  else [].

Definition STASH_CLEAR : Cmd := SpawnSync "git" ["stash"; "clear"] Inherit.
Definition STASH_CLEARED : string := Js.nl ++ "✅ 已成功清空所有暂存" ++ Js.nl.
Definition STASH_NOT_CLEARED : string := Js.nl ++ "❌ 清空失败" ++ Js.nl.
Definition STASH_PUSHED_HINT : string := "💡 提示：使用 stash 命令管理你的暂存" ++ Js.nl.

Definition stash_pop (stashRef : string) : Cmd :=
  SpawnSync "git" ["stash"; "pop"; stashRef] Inherit.
Definition stash_drop (stashRef : string) : Cmd :=
  SpawnSync "git" ["stash"; "drop"; stashRef] Inherit.
Definition stash_push (c : Cmd) : Prop :=
  exists options, c = SpawnSync "git" ("stash" :: "push" :: options) Inherit.

(** Every mutating command in a run of [m] is one of [op], and what
    comes after it in the trace is as [next] says, given how it went. *)
Definition followed {SH : Shell} {A : Type}
  (op : Cmd -> Prop) (next : Completed -> list Event -> Prop) (m : M A) : Prop :=
  forall w ks t1 c res t2,
    trace (m w ks) = t1 ++ Ran c res :: t2 -> mutating c = true ->
    op c /\ next res t2.

(** When the command went well: a line, the stash list read again, the
    count of what was read, and [more].  When it failed: no command at
    all. *)
Definition recount (show : nat -> string) (more : list Event)
  (res : Completed) (t : list Event) : Prop :=
  if succeeded res then
    exists line q,
      t = [Out line; Ran (ExecSync Stash.STASH_LIST) q;
           Out (show (length (stash_entries q)))] ++ more
  else commands t = [].

(** One line, and no more. *)
Definition verdict (good bad : string) (res : Completed) (t : list Event) : Prop :=
  t = [if succeeded res then Out good else Err bad].

(** A repository in which the newest stash entry does not apply. *)
Definition conflicting : Shell :=
  scripted [(stash_pop "stash@{0}", failed 1 "CONFLICT")] (ok EmptyString).

(** The query [Bd.getCurrentBranch] runs, and what it makes of the
    answer. *)
Definition BD_CURRENT : Cmd := ExecSync "git rev-parse --abbrev-ref HEAD".

Definition answered (q : Completed) : option string :=
  if succeeded q then Some (Js.trim (stdout q)) else None.

(** [git branch -d b], [git branch -D b]. *)
Definition branch_delete (flag b : string) : Cmd :=
  SpawnSync "git" ["branch"; flag; b] Pipe.

(** No [git branch] command. *)
Definition keeps_branches (e : Event) : bool :=
  match e with
  | Ran (SpawnSync "git" ("branch" :: _) _) _ => false
  | _ => true
  end.

(** Whatever branch a run of [m] deletes, it is not [current]. *)
Definition sparing {SH : Shell} {A : Type} (current : option string) (m : M A) : Prop :=
  forall w ks flag b res,
    In (Ran (branch_delete flag b) res) (trace (m w ks)) -> current <> Some b.

(* ================================================================== *)
(** ** Lemmas on runs                                                *)
(* ================================================================== *)

Section Runs.
Context {SH : Shell}.

Lemma after_nil {A : Type} (r : Run A) : after [] r = r.
Proof. destruct r; reflexivity. Qed.

Lemma after_after {A : Type} (t1 t2 : list Event) (r : Run A) :
  after t1 (after t2 r) = after (t1 ++ t2) r.
Proof. unfold after; simpl. now rewrite app_assoc. Qed.

Lemma bind_done {A B : Type} (m : M A) (f : A -> M B) w ks a :
  outcome (m w ks) = Done a ->
  bind m f w ks = after (trace (m w ks)) (f a (world (m w ks)) (keys (m w ks))).
Proof. intros E. unfold bind, after. now rewrite E. Qed.

Lemma bind_stop {A B : Type} (m : M A) (f : A -> M B) w ks :
  (forall a, outcome (m w ks) <> Done a) ->
  bind m f w ks =
  mkRun (cast (outcome (m w ks)) Waiting) (world (m w ks)) (keys (m w ks))
        (trace (m w ks)).
Proof.
  intros E. unfold bind. destruct (outcome (m w ks)); try reflexivity.
  now elim (E a).
Qed.

Lemma trace_bind {A B : Type} (m : M A) (f : A -> M B) w ks :
  trace (bind m f w ks) =
  trace (m w ks) ++
  match outcome (m w ks) with
  | Done a => trace (f a (world (m w ks)) (keys (m w ks)))
  | _ => []
  end.
Proof.
  unfold bind. destruct (outcome (m w ks)); simpl; now rewrite ?app_nil_r.
Qed.

Lemma trace_try_catch {A : Type} (m : M A) (h : Error -> M A) w ks :
  trace (try_catch m h w ks) =
  trace (m w ks) ++
  match outcome (m w ks) with
  | Thrown e => trace (h e (world (m w ks)) (keys (m w ks)))
  | _ => []
  end.
Proof.
  unfold try_catch. destruct (outcome (m w ks)); simpl; now rewrite ?app_nil_r.
Qed.

Lemma commands_app (a b : list Event) : commands (a ++ b) = commands a ++ commands b.
Proof. apply flat_map_app. Qed.

Lemma prompts_app (a b : list Event) : prompts (a ++ b) = prompts a ++ prompts b.
Proof. apply flat_map_app. Qed.

Lemma printed_app (a b : list Event) : printed (a ++ b) = printed a ++ printed b.
Proof. apply flat_map_app. Qed.

Lemma mutations_app (a b : list Event) :
  mutations (a ++ b) = mutations a ++ mutations b.
Proof. unfold mutations. now rewrite commands_app, filter_app. Qed.

Lemma cancelled_app (a b : list Event) :
  cancelled (a ++ b) = cancelled a || cancelled b.
Proof. apply existsb_app. Qed.

Lemma calm_mutations (t : list Event) : forallb calm t = true -> mutations t = [].
Proof.
  unfold mutations. induction t as [|e t IH]; simpl; [reflexivity|].
  intros E. apply andb_prop in E as [Ee Et]. destruct e; simpl; auto.
  simpl in Ee. destruct (mutating c); [discriminate | auto].
Qed.

Lemma silent_cancelled (t : list Event) : forallb silent t = true -> cancelled t = false.
Proof.
  induction t as [|e t IH]; simpl; [reflexivity|].
  intros E. apply andb_prop in E as [Ee Et]. destruct e; simpl; auto; discriminate.
Qed.

Lemma silent_prompts (t : list Event) : forallb silent t = true -> prompts t = [].
Proof.
  induction t as [|e t IH]; simpl; [reflexivity|].
  intros E. apply andb_prop in E as [Ee Et]. destruct e; simpl; auto; discriminate.
Qed.

(** *** The rules of [only] *)

Variable p : Event -> bool.

Lemma only_ret {A : Type} (a : A) : only p (ret a).
Proof. intros w ks; reflexivity. Qed.

Lemma only_exit {A : Type} (code : Z) : only p (@exit _ A code).
Proof. intros w ks; reflexivity. Qed.

Lemma only_throw {A : Type} (e : Error) : only p (@throw _ A e).
Proof. intros w ks; reflexivity. Qed.

Lemma only_unfinished {A : Type} : only p (@unfinished _ A).
Proof. intros w ks; reflexivity. Qed.

Lemma only_bind {A B : Type} (m : M A) (f : A -> M B) :
  only p m -> (forall a, only p (f a)) -> only p (bind m f).
Proof.
  intros Hm Hf w ks. rewrite trace_bind, forallb_app, Hm.
  destruct (outcome (m w ks)); simpl; auto. apply Hf.
Qed.

Lemma only_try_catch {A : Type} (m : M A) (h : Error -> M A) :
  only p m -> (forall e, only p (h e)) -> only p (try_catch m h).
Proof.
  intros Hm Hh w ks. rewrite trace_try_catch, forallb_app, Hm.
  destruct (outcome (m w ks)); simpl; auto. apply Hh.
Qed.

Lemma only_emit (e : Event) : p e = true -> only p (emit e).
Proof. intros E w ks; simpl. now rewrite E. Qed.

Lemma only_invoke (c : Cmd) : (forall r, p (Ran c r) = true) -> only p (invoke c).
Proof. intros E w ks; simpl. now rewrite E. Qed.

Lemma only_answer {A : Type} (q : Prompt) (read : Key -> option A) :
  p (Asked q) = true -> (forall k, p (Got k) = true) -> only p (answer q read).
Proof.
  intros Eq Ek w ks. unfold answer.
  destruct ks as [|k ks]; simpl; [now rewrite Eq|].
  destruct k; simpl; try destruct (read _); simpl; now rewrite ?Eq, ?Ek.
Qed.

Lemma only_select (msg : string) (cs : list Choice) (initial : nat) :
  p (Asked (Select msg cs initial)) = true -> (forall k, p (Got k) = true) ->
  only p (select msg cs initial).
Proof.
  intros Eq Ek. unfold select. destruct (selectable cs).
  - now apply only_answer.
  - apply only_throw.
Qed.

Lemma only_multiSelect (msg : string) (cs : list Choice) :
  p (Asked (MultiSelect msg cs)) = true -> (forall k, p (Got k) = true) ->
  only p (multiSelect msg cs).
Proof.
  intros Eq Ek. unfold multiSelect. destruct (selectable cs).
  - now apply only_answer.
  - apply only_throw.
Qed.

Lemma only_confirm (msg : string) (initial : bool) :
  p (Asked (Confirm msg initial)) = true -> (forall k, p (Got k) = true) ->
  only p (confirm msg initial).
Proof. intros Eq Ek. now apply only_answer. Qed.

Lemma only_input (msg : string) (validate : string -> option string) :
  p (Asked (Input msg)) = true -> (forall k, p (Got k) = true) ->
  (forall why, p (Refused why) = true) -> only p (input msg validate).
Proof.
  intros Eq Ek Er w ks. unfold input.
  assert (L : forallb p (snd (input_loop validate ks)) = true).
  { induction ks as [|k ks IH]; simpl; [reflexivity|].
    destruct k; simpl; try reflexivity; try (now rewrite Ek);
      destruct (validate _); simpl; try (now rewrite Ek);
      destruct (input_loop validate ks) as [[o ks'] t]; simpl in *;
      now rewrite Ek, Er. }
  destruct (input_loop validate ks) as [[o ks'] t]; simpl in *.
  now rewrite Eq.
Qed.

Lemma only_for_each {A : Type} (l : list A) (body : A -> M unit) :
  (forall x, only p (body x)) -> only p (for_each l body).
Proof.
  intros Hb. induction l as [|x l IH]; simpl.
  - apply only_ret.
  - apply only_bind; auto.
Qed.

Lemma only_for_each_i {A : Type} (l : list A) (body : nat -> A -> M unit) i :
  (forall i x, only p (body i x)) -> only p (for_each_i i l body).
Proof.
  intros Hb. revert i. induction l as [|x l IH]; intros i; simpl.
  - apply only_ret.
  - apply only_bind; auto.
Qed.

End Runs.

(** *** Stepping through a run *)

Section Stepping.
Context {SH : Shell}.

Lemma bind_andThen {A B : Type} (m : M A) (f : A -> M B) w ks :
  bind m f w ks = andThen f (m w ks).
Proof. reflexivity. Qed.

Lemma try_catch_recover {A : Type} (m : M A) (h : Error -> M A) w ks :
  try_catch m h w ks = recover h (m w ks).
Proof. reflexivity. Qed.

Lemma andThen_done {A B : Type} (f : A -> M B) a w ks t :
  andThen f (mkRun (Done a) w ks t) = after t (f a w ks).
Proof. reflexivity. Qed.

Lemma andThen_after {A B : Type} (f : A -> M B) t r :
  andThen f (after t r) = after t (andThen f r).
Proof.
  destruct r as [o w ks t']. destruct o; try reflexivity.
  unfold andThen, after; simpl. now rewrite app_assoc.
Qed.

Lemma recover_after {A : Type} (h : Error -> M A) t r :
  recover h (after t r) = after t (recover h r).
Proof.
  destruct r as [o w ks t']. destruct o; try reflexivity.
  unfold recover, after; simpl. now rewrite app_assoc.
Qed.

Lemma after_run {A : Type} t (o : Outcome A) w ks t' :
  after t (mkRun o w ks t') = mkRun o w ks (t ++ t').
Proof. reflexivity. Qed.

Lemma if_run {A : Type} (b : bool) (m1 m2 : M A) w ks :
  (if b then m1 else m2) w ks = if b then m1 w ks else m2 w ks.
Proof. now destruct b. Qed.

End Stepping.

Create Rewrite HintDb run.
#[export] Hint Rewrite @bind_andThen @try_catch_recover @andThen_after
  @recover_after @after_after @after_run : run.

(** Unfold the primitives and the finished parts of a run. *)
Ltac compute_run :=
  cbn [andThen recover after ret emit console_log console_error invoke
       spawnSync exit throw unfinished exit_with
       outcome world keys trace cast app].

Ltac step := autorewrite with run; compute_run.


(** *** Evaluating a run by rewriting *)

Section Evaluating.
Context {SH : Shell}.

Lemma andThen_exited {A B : Type} (f : A -> M B) code w ks t :
  andThen f (mkRun (Exited code) w ks t) = mkRun (Exited code) w ks t.
Proof. reflexivity. Qed.

Lemma andThen_thrown {A B : Type} (f : A -> M B) e w ks t :
  andThen f (mkRun (Thrown e) w ks t) = mkRun (Thrown e) w ks t.
Proof. reflexivity. Qed.

Lemma andThen_waiting {A B : Type} (f : A -> M B) w ks t :
  andThen f (mkRun Waiting w ks t) = mkRun Waiting w ks t.
Proof. reflexivity. Qed.

Lemma andThen_unfinished {A B : Type} (f : A -> M B) w ks t :
  andThen f (mkRun Unfinished w ks t) = mkRun Unfinished w ks t.
Proof. reflexivity. Qed.

Lemma recover_thrown {A : Type} (h : Error -> M A) e w ks t :
  recover h (mkRun (Thrown e) w ks t) = after t (h e w ks).
Proof. reflexivity. Qed.

Lemma recover_done {A : Type} (h : Error -> M A) a w ks t :
  recover h (mkRun (Done a) w ks t) = mkRun (Done a) w ks t.
Proof. reflexivity. Qed.

Lemma recover_exited {A : Type} (h : Error -> M A) code w ks t :
  recover h (mkRun (Exited code) w ks t) = mkRun (Exited code) w ks t.
Proof. reflexivity. Qed.

Lemma recover_waiting {A : Type} (h : Error -> M A) w ks t :
  recover h (mkRun Waiting w ks t) = mkRun Waiting w ks t.
Proof. reflexivity. Qed.

Lemma recover_unfinished {A : Type} (h : Error -> M A) w ks t :
  recover h (mkRun Unfinished w ks t) = mkRun Unfinished w ks t.
Proof. reflexivity. Qed.

Lemma ret_run {A : Type} (a : A) w ks : ret a w ks = mkRun (Done a) w ks [].
Proof. reflexivity. Qed.

Lemma exit_run {A : Type} code w ks : @exit _ A code w ks = mkRun (Exited code) w ks [].
Proof. reflexivity. Qed.

Lemma exit_with_run {A : Type} r w ks :
  @exit_with _ A r w ks =
  mkRun (Exited (match status r with Some code => code | None => 0%Z end)) w ks [].
Proof. reflexivity. Qed.

Lemma throw_run {A : Type} e w ks : @throw _ A e w ks = mkRun (Thrown e) w ks [].
Proof. reflexivity. Qed.

Lemma unfinished_run {A : Type} w ks : @unfinished _ A w ks = mkRun Unfinished w ks [].
Proof. reflexivity. Qed.

Lemma emit_run e w ks : emit e w ks = mkRun (Done tt) w ks [e].
Proof. reflexivity. Qed.

Lemma console_log_run s w ks : console_log s w ks = mkRun (Done tt) w ks [Out s].
Proof. reflexivity. Qed.

Lemma console_error_run s w ks : console_error s w ks = mkRun (Done tt) w ks [Err s].
Proof. reflexivity. Qed.

Lemma invoke_run c w ks :
  invoke c w ks = mkRun (Done (fst (sh c w))) (snd (sh c w)) ks [Ran c (fst (sh c w))].
Proof. reflexivity. Qed.

Lemma spawnSync_run file args io w ks :
  spawnSync file args io w ks =
  mkRun (Done (fst (sh (SpawnSync file args io) w))) (snd (sh (SpawnSync file args io) w))
        ks [Ran (SpawnSync file args io) (fst (sh (SpawnSync file args io) w))].
Proof. reflexivity. Qed.

Lemma outcome_run {A : Type} (o : Outcome A) w ks t : outcome (mkRun o w ks t) = o.
Proof. reflexivity. Qed.

Lemma world_run {A : Type} (o : Outcome A) w ks t : world (mkRun o w ks t) = w.
Proof. reflexivity. Qed.

Lemma keys_run {A : Type} (o : Outcome A) w ks t : keys (mkRun o w ks t) = ks.
Proof. reflexivity. Qed.

Lemma trace_run {A : Type} (o : Outcome A) w ks t : trace (mkRun o w ks t) = t.
Proof. reflexivity. Qed.

Lemma outcome_after {A : Type} t (r : Run A) : outcome (after t r) = outcome r.
Proof. reflexivity. Qed.

Lemma world_after {A : Type} t (r : Run A) : world (after t r) = world r.
Proof. reflexivity. Qed.

Lemma keys_after {A : Type} t (r : Run A) : keys (after t r) = keys r.
Proof. reflexivity. Qed.

Lemma trace_after {A : Type} t (r : Run A) : trace (after t r) = t ++ trace r.
Proof. reflexivity. Qed.

Lemma cons_app {X : Type} (x : X) (l l' : list X) : (x :: l) ++ l' = x :: (l ++ l').
Proof. reflexivity. Qed.

Lemma nil_app {X : Type} (l : list X) : [] ++ l = l.
Proof. reflexivity. Qed.

End Evaluating.

Create Rewrite HintDb eval.
#[export] Hint Rewrite @bind_andThen @try_catch_recover @andThen_after
  @recover_after @after_after @after_run
  @andThen_done @andThen_exited @andThen_thrown @andThen_waiting @andThen_unfinished
  @recover_thrown @recover_done @recover_exited @recover_waiting @recover_unfinished
  @ret_run @exit_run @exit_with_run @throw_run @unfinished_run @emit_run
  @console_log_run @console_error_run @invoke_run @spawnSync_run
  @outcome_run @world_run @keys_run @trace_run
  @outcome_after @world_after @keys_after @trace_after
  @cons_app @nil_app @app_nil_r : eval.

Ltac go := repeat (progress (autorewrite with eval; cbv beta iota)).
Ltac go_in H :=
  repeat (progress (autorewrite with eval in H; cbv beta iota in H)).

(** *** Effects: which events a computation can produce *)

Create HintDb flows.

Ltac only_step :=
  lazymatch goal with
  | |- only _ (bind _ _) => apply only_bind; [| intros ?]
  | |- only _ (try_catch _ _) => apply only_try_catch; [| intros ?]
  | |- only _ (ret _) => apply only_ret
  | |- only _ (exit _) => apply only_exit
  | |- only _ (exit_with _) => apply only_exit
  | |- only _ (throw _) => apply only_throw
  | |- only _ unfinished => apply only_unfinished
  | |- only _ (console_log _) => apply only_emit; reflexivity
  | |- only _ (console_error _) => apply only_emit; reflexivity
  | |- only _ (emit _) => apply only_emit; reflexivity
  | |- only _ (spawnSync _ _ _) => apply only_invoke; intros ?; reflexivity
  | |- only _ (invoke _) => apply only_invoke; intros ?; reflexivity
  | |- only _ (execSync _) => unfold execSync
  | |- only _ (select _ _ _) =>
      apply only_select; [reflexivity | intros ?; reflexivity]
  | |- only _ (multiSelect _ _) =>
      apply only_multiSelect; [reflexivity | intros ?; reflexivity]
  | |- only _ (confirm _ _) =>
      apply only_confirm; [reflexivity | intros ?; reflexivity]
  | |- only _ (input _ _) =>
      apply only_input; [reflexivity | intros ?; reflexivity | intros ?; reflexivity]
  | |- only _ (for_each _ _) => apply only_for_each; intros ?
  | |- only _ (for_each_i _ _ _) => apply only_for_each_i; intros ? ?
  | |- only _ (if ?b then _ else _) => destruct b
  | |- only _ (match ?x with _ => _ end) => destruct x
  | |- only _ _ => solve [auto with flows]
  end.

Ltac only_tac := repeat only_step.

Section Effects.
Context {SH : Shell}.

Lemma only_weaken {A : Type} (p q : Event -> bool) (m : M A) :
  (forall e, p e = true -> q e = true) -> only p m -> only q m.
Proof.
  intros Hpq Hm w ks. specialize (Hm w ks).
  rewrite forallb_forall in *. auto.
Qed.

Lemma inspecting_calm e : inspecting e = true -> calm e = true.
Proof.
  destruct e as [c r| | | | |]; simpl; try reflexivity.
  destruct c as [l|f a|f a i]; simpl; try discriminate; try reflexivity.
  repeat (match goal with
   | |- context [match ?x with _ => _ end] => destruct x; simpl; try discriminate; try reflexivity
   end).
Qed.

Lemma inspecting_silent e : inspecting e = true -> silent e = true.
Proof. destruct e; simpl; try reflexivity; discriminate. Qed.

Lemma only_calm {A : Type} (m : M A) : only inspecting m -> only calm m.
Proof. apply only_weaken, inspecting_calm. Qed.

Lemma only_silent {A : Type} (m : M A) : only inspecting m -> only silent m.
Proof. apply only_weaken, inspecting_silent. Qed.

Lemma abortable_silent {A : Type} (m : M A) : only silent m -> abortable m.
Proof.
  intros Hm w ks C. rewrite (silent_cancelled _ (Hm w ks)) in C. discriminate.
Qed.

Lemma abortable_bind {A B : Type} (m : M A) (f : A -> M B) :
  only calm m -> abortable m -> (forall a, abortable (f a)) -> abortable (bind m f).
Proof.
  intros Hc Hm Hf w ks.
  pose proof (calm_mutations _ (Hc w ks)) as Hmut.
  specialize (Hm w ks). rewrite bind_andThen.
  destruct (m w ks) as [o w1 ks1 t1]. cbn [outcome trace] in *.
  destruct o as [a| | | |]; cbn [andThen outcome world keys trace cast after];
    try (intros C; destruct (Hm C) as (E & Hx & Hy); inversion E; subst;
         repeat split; auto).
  rewrite cancelled_app, mutations_app, Hmut.
  destruct (cancelled t1); [intros _; now destruct Hm as [? _]|].
  simpl. intros C. destruct (Hf a _ _ C) as (Ho & Hmu & t0 & Ht).
  repeat split; auto. exists (t1 ++ t0). now rewrite Ht, app_assoc.
Qed.

Lemma abortable_answer {A : Type} (q : Prompt) (read : Key -> option A) :
  abortable (answer q read).
Proof.
  intros w ks. unfold answer.
  destruct ks as [|k ks]; simpl; [discriminate|].
  destruct k; simpl; try destruct (read _); simpl; try discriminate.
  intros _. repeat split. now exists [Asked q].
Qed.

Lemma abortable_select (msg : string) (cs : list Choice) (initial : nat) :
  abortable (select msg cs initial).
Proof.
  unfold select. destruct (selectable cs).
  - apply abortable_answer.
  - intros w ks C. discriminate C.
Qed.

Lemma abortable_multiSelect (msg : string) (cs : list Choice) :
  abortable (multiSelect msg cs).
Proof.
  unfold multiSelect. destruct (selectable cs).
  - apply abortable_answer.
  - intros w ks C. discriminate C.
Qed.

Lemma abortable_confirm (msg : string) (initial : bool) :
  abortable (confirm msg initial).
Proof. apply abortable_answer. Qed.

Lemma abortable_input (msg : string) (validate : string -> option string) :
  abortable (input msg validate).
Proof.
  intros w ks C. split; [|split].
  - revert C. unfold input.
    assert (L : cancelled (snd (input_loop validate ks)) = true ->
                fst (fst (input_loop validate ks)) = Thrown ECancel).
    { induction ks as [|k ks IH]; simpl; [discriminate|].
      destruct k; simpl; try discriminate; try reflexivity;
        destruct (validate _); simpl; try discriminate;
        destruct (input_loop validate ks) as [[o ks'] t]; simpl in *; auto. }
    destruct (input_loop validate ks) as [[o ks'] t]; simpl in *. exact L.
  - apply calm_mutations.
    apply only_input; [reflexivity | intros ?; reflexivity | intros ?; reflexivity].
  - revert C. unfold input.
    assert (L : cancelled (snd (input_loop validate ks)) = true ->
                exists t0, snd (input_loop validate ks) = t0 ++ [Got CtrlC]).
    { induction ks as [|k ks IH]; simpl; [discriminate|].
      destruct k; simpl; try discriminate; try (intros _; now exists []);
        destruct (validate _); simpl; try discriminate;
        destruct (input_loop validate ks) as [[o ks'] t]; simpl in *;
        intros C; destruct (IH C) as (t0 & Ht); rewrite Ht;
        eexists (_ :: _ :: t0); reflexivity. }
    destruct (input_loop validate ks) as [[o ks'] t]; simpl in *.
    intros C. destruct (L C) as (t0 & Ht). rewrite Ht.
    exists (Asked (Input msg) :: t0). reflexivity.
Qed.

End Effects.

#[export] Hint Resolve only_calm only_silent : flows.

Ltac abort_step :=
  first
    [ solve [apply abortable_silent; only_tac]
    | lazymatch goal with
      | |- abortable (bind _ _) =>
          apply abortable_bind; [solve [only_tac] | | intros ?]
      | |- abortable (select _ _ _) => apply abortable_select
      | |- abortable (multiSelect _ _) => apply abortable_multiSelect
      | |- abortable (confirm _ _) => apply abortable_confirm
      | |- abortable (input _ _) => apply abortable_input
      | |- abortable (if ?b then _ else _) => destruct b
      | |- abortable (match ?x with _ => _ end) => destruct x
      | |- abortable _ => solve [auto with flows]
      end ].

Ltac abort_tac := repeat abort_step.

(** *** The reset tool's helpers and flows *)

Section ResFlows.
Context {SH : Shell}.

Lemma res_run cmd ig : only inspecting (Res.run cmd ig).
Proof. unfold Res.run. only_tac. Qed.

Lemma res_isGitRepo : only inspecting Res.isGitRepo.
Proof. unfold Res.isGitRepo. only_tac. Qed.

#[local] Hint Resolve res_run res_isGitRepo : flows.

Lemma res_getCurrentBranch : only inspecting Res.getCurrentBranch.
Proof. unfold Res.getCurrentBranch. only_tac. Qed.

Lemma res_getStagedFiles : only inspecting Res.getStagedFiles.
Proof. unfold Res.getStagedFiles. only_tac. Qed.

Lemma res_getCommits n : only inspecting (Res.getCommits n).
Proof. unfold Res.getCommits. only_tac. Qed.

Lemma res_getCommitsInRange n : only inspecting (Res.getCommitsInRange n).
Proof. unfold Res.getCommitsInRange. only_tac. Qed.

#[local] Hint Resolve res_getCurrentBranch res_getCommitsInRange : flows.

Lemma res_getRemoteBranch : only inspecting Res.getRemoteBranch.
Proof. unfold Res.getRemoteBranch. only_tac. Qed.

#[local] Hint Resolve res_getRemoteBranch : flows.

Lemma res_getRemoteDiff : only inspecting Res.getRemoteDiff.
Proof. unfold Res.getRemoteDiff. only_tac. Qed.

#[local] Hint Resolve res_getStagedFiles res_getCommits res_getRemoteDiff : flows.

Lemma res_resetCommits : abortable Res.resetCommits.
Proof. unfold Res.resetCommits, Res.executeRewind. abort_tac. Qed.

Lemma res_unstageFiles : abortable Res.unstageFiles.
Proof. unfold Res.unstageFiles, Res.unstageSelected, Res.unstageEach. abort_tac. Qed.

Lemma res_resetToRemote : abortable Res.resetToRemote.
Proof. unfold Res.resetToRemote. abort_tac. Qed.

Lemma res_resetToCommit : abortable Res.resetToCommit.
Proof. unfold Res.resetToCommit, Res.resetToShown. abort_tac. Qed.

End ResFlows.

#[export] Hint Resolve res_run res_isGitRepo res_getCurrentBranch
  res_getStagedFiles res_getCommits res_getCommitsInRange res_getRemoteBranch
  res_getRemoteDiff : flows.
#[export] Hint Resolve res_resetCommits res_unstageFiles res_resetToRemote
  res_resetToCommit : flows.

(* ================================================================== *)
(** ** No repository                                                   *)
(* ================================================================== *)

(** C2, as amended.  Outside a repository each of res, stash, bd, p, b,
    l, push and ck (run without arguments) runs its probe, prints
    [NOT_A_REPO] and exits with code 1; c does the same with a message
    of its own, [Gcb.NO_REPO].  Nothing else happens: no prompt is
    rendered and no further command is run. *)
Theorem environment_error_before_any_prompt
  (SH : Shell) (t : Tool) (w : World) (ks : list Key) :
  outside_repo w -> probes t = true ->
  launch t w ks =
  mkRun (Exited 1) (snd (sh (probe_of t) w)) ks
        [Ran (probe_of t) (fst (sh (probe_of t) w)); Err (complaint t)].
Proof.
  intros (E1 & E2 & E3) Hp. unfold PROBE, PROBE_LINE, PROBE_BRANCHES in *.
  destruct t as [| | | | |ua| |[|a args]|pf]; try discriminate Hp; clear Hp;
    cbv [launch probe_of complaint PROBE PROBE_LINE PROBE_BRANCHES].
  - unfold Res.main, Res.isGitRepo. step. rewrite E1. step. reflexivity.
  - unfold Stash.main, Stash.main_within, Stash.isGitRepo. step.
    rewrite E1. step. reflexivity.
  - unfold Bd.script, Bd.main, Bd.run, execSync. step.
    rewrite E2. step. reflexivity.
  - unfold P.main, P.isGitRepo. step. rewrite E1. step. reflexivity.
  - unfold B.main, B.isGitRepo. step. rewrite E1. step. reflexivity.
  - unfold L.main, L.isGitRepo. step. rewrite E1. step. reflexivity.
  - unfold Push.main, Push.isGitRepo. step. rewrite E1. step. reflexivity.
  - unfold Ck.main, Ck.interactiveSwitch, Ck.getBranches, execSync. step.
    rewrite E3. step. reflexivity.
  - unfold Gcb.main, Gcb.getBranches, execSync. step.
    rewrite E3. step. reflexivity.
Qed.

Lemma environment_error_before_any_prompt_witness :
  launch (SH := nowhere) ToolStash tt [Pick 0] =
  mkRun (SH := nowhere) (Exited 1) tt [Pick 0]
        [Ran PROBE (failed 128 "fatal: not a git repository (or any of the parent directories): .git");
         Err NOT_A_REPO].
Proof.
  apply (environment_error_before_any_prompt nowhere ToolStash tt [Pick 0]).
  - repeat split; reflexivity.
  - reflexivity.
Defined.

(** C2, as stated, fails twice in one and the same directory that is
    no repository.  c exits with code 1 but prints another message than
    res does.  And ck given a branch name makes no probe at all, unlike
    ck without arguments: it asks for the current branch, runs
    [git checkout -b], reports that the branch could not be created and
    ends with status 0, without the environment-error message. *)
Lemma environment_error_not_uniform :
  outside_repo (SH := nowhere) tt /\
  printed (trace (launch (SH := nowhere) ToolRes tt [])) = [NOT_A_REPO] /\
  outcome (launch (SH := nowhere) (ToolC Gcb.other) tt []) = Exited 1 /\
  printed (trace (launch (SH := nowhere) (ToolC Gcb.other) tt [])) =
    ["fatal: not a git repository (or any of the parent directories): .git";
     Gcb.NO_REPO] /\
  Gcb.NO_REPO <> NOT_A_REPO /\
  exit_code (outcome (launch (SH := nowhere) (ToolCk ["x"]) tt [])) = Some 0%Z /\
  commands (trace (launch (SH := nowhere) (ToolCk ["x"]) tt [])) =
    [ExecSync "git branch --show-current";
     SpawnSync "git" ["checkout"; "-b"; "x"] Inherit] /\
  mutations (trace (launch (SH := nowhere) (ToolCk ["x"]) tt [])) =
    [SpawnSync "git" ["checkout"; "-b"; "x"] Inherit] /\
  ~ In NOT_A_REPO (printed (trace (launch (SH := nowhere) (ToolCk ["x"]) tt []))).
Proof.
  split; [repeat split; reflexivity|].
  split; [vm_compute; reflexivity|].
  split; [vm_compute; reflexivity|].
  split; [vm_compute; reflexivity|].
  split; [intros E; vm_compute in E; discriminate E|].
  split; [vm_compute; reflexivity|].
  split; [vm_compute; reflexivity|].
  split; [vm_compute; reflexivity|].
  vm_compute. intros E.
  repeat (destruct E as [E|E]; [discriminate E|]). exact E.
Qed.

(* ================================================================== *)
(** ** res: unstaging files                                            *)
(* ================================================================== *)

Section Unstage.
Context {SH : Shell}.

Lemma res_run_eq cmd ig w ks :
  Res.run cmd ig w ks =
  mkRun (let q := fst (sh (ExecSync cmd) w) in
         if succeeded q then Done (Js.trim (stdout q))
         else if ig then Done EmptyString else Thrown (ECommand cmd q))
        (snd (sh (ExecSync cmd) w)) ks
        [Ran (ExecSync cmd) (fst (sh (ExecSync cmd) w))].
Proof.
  unfold Res.run, execSync. go.
  destruct (succeeded (fst (sh (ExecSync cmd) w))); go; [reflexivity|].
  destruct ig; go; reflexivity.
Qed.

(** [getStagedFiles] never throws: it runs one query and hands back a
    list, empty when the query failed. *)
Lemma getStagedFiles_done w :
  exists staged, forall ks,
    Res.getStagedFiles w ks =
    mkRun (Done staged) (snd (sh (ExecSync "git diff --cached --name-status") w)) ks
          [Ran (ExecSync "git diff --cached --name-status")
               (fst (sh (ExecSync "git diff --cached --name-status") w))].
Proof.
  unfold Res.getStagedFiles.
  destruct (succeeded (fst (sh (ExecSync "git diff --cached --name-status") w))) eqn:Eq.
  - destruct (Js.truthy
                (Js.trim (stdout (fst (sh (ExecSync "git diff --cached --name-status") w)))))
      eqn:Et; eexists; intros ks; go; rewrite res_run_eq; cbv zeta; rewrite Eq; go;
      rewrite Et; go; reflexivity.
  - exists []. intros ks. go. rewrite res_run_eq. cbv zeta. rewrite Eq. go. reflexivity.
Qed.

Lemma unstageEach_run selected : forall w ks,
  exists results,
    length results = length selected /\
    outcome (Res.unstageEach selected w ks) = Done tt /\
    keys (Res.unstageEach selected w ks) = ks /\
    trace (Res.unstageEach selected w ks) = unstage_report selected results.
Proof.
  unfold Res.unstageEach.
  induction selected as [|f fs IH]; intros w ks; cbn [for_each].
  - exists []. repeat split.
  - go.
    set (q := fst (sh (SpawnSync "git" ["reset"; "HEAD"; Js.str f] Pipe) w)).
    set (w1 := snd (sh (SpawnSync "git" ["reset"; "HEAD"; Js.str f] Pipe) w)).
    destruct (IH w1 ks) as (rs & Hl & Ho & Hk & Ht).
    exists (q :: rs). cbn [length unstage_report]. rewrite Hl.
    destruct (succeeded q); go; rewrite Ho, Hk, Ht; repeat split.
Qed.

End Unstage.

Section UnstageFlow.
Context {SH : Shell}.

Lemma unstageChoices_selectable staged : selectable (Res.unstageChoices staged) = true.
Proof. reflexivity. Qed.

(** C5.  Whatever the staged files and the operator's ticks, once the
    selection is not empty the unstage flow runs [git reset HEAD <file>]
    for every selected file, in order, and prints for each one its own
    line of success or failure, whatever the status of the others; it
    runs to its end ([Done]), so the process never exits in between, and
    it runs no other command than the query for the staged files. *)
Theorem unstage_attempts_every_file w ks ixs staged :
  outcome (Res.getStagedFiles w (Toggle ixs :: ks)) = Done staged ->
  Res.expandSelection staged (ticked (Res.unstageChoices staged) 0 ixs) <> [] ->
  exists results before after,
    length results =
      length (Res.expandSelection staged (ticked (Res.unstageChoices staged) 0 ixs)) /\
    outcome (Res.unstageFiles w (Toggle ixs :: ks)) = Done tt /\
    keys (Res.unstageFiles w (Toggle ixs :: ks)) = ks /\
    trace (Res.unstageFiles w (Toggle ixs :: ks)) =
      before ++
      unstage_report
        (Res.expandSelection staged (ticked (Res.unstageChoices staged) 0 ixs))
        results ++
      after /\
    commands before = [ExecSync "git diff --cached --name-status"] /\
    commands after = [].
Proof.
  intros Hs Hne. unfold Res.unstageFiles. go.
  destruct (getStagedFiles_done w) as (staged' & E).
  rewrite E in Hs |- *. cbn [outcome] in Hs. injection Hs as ->. go.
  destruct staged as [|s0 st].
  { elim Hne. unfold Res.expandSelection, Res.unstageChoices.
    cbn [map ticked choice disabled negb andb].
    destruct (existsb (Nat.eqb 0) ixs); reflexivity. }
  set (staged := s0 :: st) in *.
  go. unfold multiSelect. rewrite unstageChoices_selectable.
  cbn [answer]. go. unfold Res.unstageSelected.
  destruct (Res.expandSelection staged (ticked (Res.unstageChoices staged) 0 ixs))
    as [|f fs] eqn:Esel; [now elim Hne|].
  go.
  match goal with |- context [Res.unstageEach ?sel ?w' ?ks'] =>
    destruct (unstageEach_run sel w' ks') as (rs & Hl & Ho & Hk & Ht);
    (destruct (Res.unstageEach sel w' ks') as [o w2 ks2 t]);
    cbn [outcome keys trace] in Ho, Hk, Ht; subst o ks2 t
  end.
  go.
  match goal with
  | |- exists r b a, _ /\ _ /\ _ /\
         (?x1 :: ?x2 :: ?x3 :: ?x4 :: ?x5 :: ?x6 :: unstage_report _ _ ++ ?aft) = _ /\ _ =>
      exists rs, [x1; x2; x3; x4; x5; x6], aft
  end.
  split; [exact Hl|]. split; [reflexivity|]. split; [reflexivity|].
  split; [reflexivity|]. split; reflexivity.

Qed.

End UnstageFlow.

Lemma unstage_attempts_every_file_witness :
  exists results before after,
    length results =
      length (Res.expandSelection sandbox_staged
                (ticked (Res.unstageChoices sandbox_staged) 0 [1; 2])) /\
    outcome (Res.unstageFiles (SH := sandbox) tt [Toggle [1; 2]]) = Done tt /\
    keys (Res.unstageFiles (SH := sandbox) tt [Toggle [1; 2]]) = [] /\
    trace (Res.unstageFiles (SH := sandbox) tt [Toggle [1; 2]]) =
      before ++
      unstage_report
        (Res.expandSelection sandbox_staged
           (ticked (Res.unstageChoices sandbox_staged) 0 [1; 2]))
        results ++
      after /\
    commands before = [ExecSync "git diff --cached --name-status"] /\
    commands after = [].
Proof.
  apply (unstage_attempts_every_file (SH := sandbox) tt [] [1; 2] sandbox_staged).
  - vm_compute. reflexivity.
  - vm_compute. discriminate.
Defined.

Section SelectAll.
Context {SH : Shell}.

Lemma commands_unstage_report selected : forall results,
  length results = length selected ->
  commands (unstage_report selected results) = map reset_file selected.
Proof.
  induction selected as [|f fs IH]; intros [|r rs] Hl; try discriminate Hl;
    [reflexivity|].
  cbn [unstage_report map]. change (commands (?a :: ?b :: ?l)) with (reset_file f :: commands l).
  f_equal. apply IH. now injection Hl.
Qed.

Lemma mem_true x l : Js.mem x l = true <-> In x l.
Proof.
  unfold Js.mem. rewrite existsb_exists. split.
  - intros (y & Hy & E). apply String.eqb_eq in E. now subst.
  - intros Hx. exists x. split; [assumption | apply String.eqb_refl].
Qed.

Lemma ticked_in cs : forall i ixs x,
  In x (ticked cs i ixs) -> In x (map choice_name cs).
Proof.
  induction cs as [|c cs IH]; intros i ixs x; cbn [ticked map]; [easy|].
  destruct (existsb (Nat.eqb i) ixs && negb (disabled c)).
  - intros [E|Hx]; [now left | right; eauto].
  - intros Hx. right; eauto.
Qed.

Lemma ticked_every cs : forall i,
  Forall (fun c => disabled c = false) cs ->
  forall ixs, (forall j, i <= j < i + length cs -> In j ixs) ->
  ticked cs i ixs = map choice_name cs.
Proof.
  induction cs as [|c cs IH]; intros i Hd ixs Hin; cbn [ticked map]; [reflexivity|].
  inversion Hd as [|? ? Hc Hcs]; subst.
  assert (E : existsb (Nat.eqb i) ixs = true).
  { apply existsb_exists. exists i. split; [|apply Nat.eqb_refl].
    apply Hin. cbn [length]. lia. }
  rewrite E, Hc. cbn [negb andb]. f_equal.
  apply IH; [assumption|]. intros j Hj. apply Hin. cbn [length]. lia.
Qed.

Lemma real_choice_names staged :
  well_named staged ->
  map Some
    (map choice_name
       (map (fun item =>
               mkChoice (Res.file item)
                 (Js.str (Res.file item) ++ " (" ++ Res.statusText item ++ ")")%string
                 false) staged)) =
  map Res.file staged.
Proof.
  induction 1 as [|item staged (f & Ef & Hf) _ IH]; cbn [map]; [reflexivity|].
  rewrite IH. f_equal. unfold choice_name. cbn [name message]. rewrite Ef.
  unfold Js.or_else. destruct f; [now elim Hf | reflexivity].
Qed.

Lemma filter_not_all names :
  Js.mem Res.ALL names = false ->
  filter (fun s => negb (String.eqb s Res.ALL)) names = names.
Proof.
  induction names as [|n names IH]; cbn [Js.mem existsb filter]; [reflexivity|].
  intros E. apply orb_false_elim in E as [E1 E2].
  rewrite String.eqb_sym, E1. cbn [negb]. f_equal. now apply IH.
Qed.

Lemma expand_all staged ixs :
  In 0 ixs ->
  Res.expandSelection staged (ticked (Res.unstageChoices staged) 0 ixs) =
  map Res.file staged.
Proof.
  intros H0. unfold Res.expandSelection, Res.unstageChoices. cbn [ticked].
  assert (E : existsb (Nat.eqb 0) ixs = true).
  { apply existsb_exists. exists 0. split; [assumption | reflexivity]. }
  rewrite E. cbn [choice disabled negb andb]. 
  change (choice_name (mkChoice (Some Res.ALL) ?m false)) with Res.ALL.
  cbn [Js.mem existsb]. rewrite String.eqb_refl. reflexivity.
Qed.

Lemma expand_every staged :
  well_named staged ->
  Res.expandSelection staged
    (ticked (Res.unstageChoices staged) 0 (seq 1 (length staged))) =
  map Res.file staged.
Proof.
  intros Hw. unfold Res.expandSelection, Res.unstageChoices. cbn [ticked].
  assert (E : existsb (Nat.eqb 0) (seq 1 (length staged)) = false).
  { apply not_true_is_false. intros E. apply existsb_exists in E as (j & Hj & Ej).
    apply in_seq in Hj. apply Nat.eqb_eq in Ej. lia. }
  rewrite E. cbn [andb].
  rewrite ticked_every.
  - rewrite <- (real_choice_names staged Hw).
    destruct (Js.mem Res.ALL _) eqn:Em; [reflexivity|].
    now rewrite filter_not_all.
  - clear. induction staged; cbn [map]; constructor; auto.
  - intros j Hj. rewrite length_map in Hj. apply in_seq. lia.
Qed.

Lemma expand_real staged jxs x :
  well_named staged ->
  In x (Res.expandSelection staged (ticked (Res.unstageChoices staged) 0 jxs)) ->
  In x (map Res.file staged).
Proof.
  intros Hw. unfold Res.expandSelection.
  destruct (Js.mem Res.ALL _) eqn:Em; [easy|].
  rewrite in_map_iff. intros (s & <- & Hs). apply filter_In in Hs as [Hs Hne].
  apply ticked_in in Hs. unfold Res.unstageChoices in Hs. cbn [map] in Hs.
  destruct Hs as [E|Hs].
  - change (choice_name (choice Res.ALL _)) with Res.ALL in E. subst s.
    rewrite String.eqb_refl in Hne. discriminate Hne.
  - rewrite <- (real_choice_names staged Hw). now apply in_map.
Qed.

End SelectAll.

Section SelectAllFlow.
Context {SH : Shell}.

Lemma commands_unstageSelected selected w ks :
  commands (trace (Res.unstageSelected selected w ks)) = map reset_file selected.
Proof.
  unfold Res.unstageSelected. destruct selected as [|f fs]; [reflexivity|].
  go.
  destruct (unstageEach_run (f :: fs) w ks) as (rs & Hl & Ho & Hk & Ht).
  destruct (Res.unstageEach (f :: fs) w ks) as [o w2 ks2 t].
  cbn [outcome keys trace] in Ho, Hk, Ht. subst o ks2 t. go.
  change (commands (Out ?s :: ?l)) with (commands l).
  rewrite commands_app, (commands_unstage_report _ _ Hl).
  change (commands [Out ?a; Out ?b]) with (@nil Cmd). apply app_nil_r.
Qed.

Lemma unstageFiles_selected w ks jxs staged :
  outcome (Res.getStagedFiles w (Toggle jxs :: ks)) = Done staged ->
  staged <> [] ->
  exists pre,
    commands pre = [ExecSync "git diff --cached --name-status"] /\
    Res.unstageFiles w (Toggle jxs :: ks) =
    after pre
      (Res.unstageSelected
         (Res.expandSelection staged (ticked (Res.unstageChoices staged) 0 jxs))
         (snd (sh (ExecSync "git diff --cached --name-status") w)) ks).
Proof.
  intros Hs Hne. unfold Res.unstageFiles. go.
  destruct (getStagedFiles_done w) as (staged' & E).
  rewrite E in Hs |- *. cbn [outcome] in Hs. injection Hs as ->. go.
  destruct staged as [|s0 st]; [now elim Hne|].
  set (staged := s0 :: st) in *.
  go. unfold multiSelect. rewrite unstageChoices_selectable.
  cbn [answer]. go.
  match goal with
  | |- exists pre, _ /\ after ?p _ = _ => exists p
  end.
  split; reflexivity.
Qed.

Lemma unstageFiles_nothing_staged w ks :
  outcome (Res.getStagedFiles w ks) = Done [] ->
  commands (trace (Res.unstageFiles w ks)) = [ExecSync "git diff --cached --name-status"] /\
  outcome (Res.unstageFiles w ks) = Done tt /\
  world (Res.unstageFiles w ks) = snd (sh (ExecSync "git diff --cached --name-status") w).
Proof.
  intros Hs. unfold Res.unstageFiles. go.
  destruct (getStagedFiles_done w) as (staged' & E).
  rewrite E in Hs |- *. cbn [outcome] in Hs. injection Hs as ->. go.
  repeat split.
Qed.


End SelectAllFlow.


(* ================================================================== *)
(** ** res: sync to remote                                             *)
(* ================================================================== *)

Section Sync.
Context {SH : Shell}.

Lemma inspecting_mutations t : forallb inspecting t = true -> mutations t = [].
Proof.
  intros E. apply calm_mutations. rewrite forallb_forall in *.
  intros e He. apply inspecting_calm. auto.
Qed.

Lemma inspecting_prompts t : forallb inspecting t = true -> prompts t = [].
Proof.
  intros E. apply silent_prompts. rewrite forallb_forall in *.
  intros e He. apply inspecting_silent. auto.
Qed.


End Sync.


(** *** What the prompts do with the operator's next action *)

Section Prompts.
Context {SH : Shell}.

Lemma select_pick msg cs initial i n w ks :
  pickable cs i = Some n ->
  select msg cs initial w (Pick i :: ks) =
  mkRun (Done n) w ks [Asked (Select msg cs initial); Got (Pick i)].
Proof.
  intros E. unfold select.
  assert (Hs : selectable cs = true).
  { unfold pickable in E. destruct (nth_error cs i) as [c|] eqn:Ec; [|discriminate].
    destruct (disabled c) eqn:Ed; [discriminate|].
    apply existsb_exists. exists c. split; [eapply nth_error_In; eauto | now rewrite Ed]. }
  rewrite Hs. unfold answer. now rewrite E.
Qed.

Lemma select_enter msg cs initial n w ks :
  pickable cs initial = Some n ->
  select msg cs initial w (Enter :: ks) =
  mkRun (Done n) w ks [Asked (Select msg cs initial); Got Enter].
Proof.
  intros E. unfold select.
  assert (Hs : selectable cs = true).
  { unfold pickable in E. destruct (nth_error cs initial) as [c|] eqn:Ec; [|discriminate].
    destruct (disabled c) eqn:Ed; [discriminate|].
    apply existsb_exists. exists c. split; [eapply nth_error_In; eauto | now rewrite Ed]. }
  rewrite Hs. unfold answer. now rewrite E.
Qed.

Lemma select_interrupt msg cs initial w ks :
  selectable cs = true ->
  select msg cs initial w (CtrlC :: ks) =
  mkRun (Thrown ECancel) w ks [Asked (Select msg cs initial); Got CtrlC].
Proof. intros Hs. unfold select. now rewrite Hs. Qed.

Lemma confirm_yes_no msg initial b w ks :
  confirm msg initial w (YesNo b :: ks) =
  mkRun (Done b) w ks [Asked (Confirm msg initial); Got (YesNo b)].
Proof. reflexivity. Qed.

Lemma confirm_enter msg initial w ks :
  confirm msg initial w (Enter :: ks) =
  mkRun (Done initial) w ks [Asked (Confirm msg initial); Got Enter].
Proof. reflexivity. Qed.

Lemma input_accepted msg validate s w ks :
  validate s = None ->
  input msg validate w (Line s :: ks) =
  mkRun (Done s) w ks [Asked (Input msg); Got (Line s)].
Proof. intros E. unfold input. cbn [input_loop]. now rewrite E. Qed.

(** A refused line leaves the prompt where it was: the same prompt goes
    on with the operator's next action, and nothing else has happened. *)
Lemma input_refused msg validate s why w ks :
  validate s = Some why ->
  input msg validate w (Line s :: ks) =
  mkRun (outcome (input msg validate w ks)) w (keys (input msg validate w ks))
        (Asked (Input msg) :: Got (Line s) :: Refused why ::
         tl (trace (input msg validate w ks))).
Proof.
  intros E. unfold input. cbn [input_loop]. rewrite E.
  destruct (input_loop validate ks) as [[o ks'] t]. reflexivity.
Qed.

(** A loop that only prints runs to its end and prints. *)
Lemma for_each_i_prints {A : Type} (l : list A) (line : nat -> A -> string) :
  forall i w ks,
  exists t,
    for_each_i i l (fun index x => console_log (line index x)) w ks =
    mkRun (Done tt) w ks t /\
    forallb inspecting t = true.
Proof.
  induction l as [|x l IH]; intros i w ks; cbn [for_each_i].
  - exists []. split; reflexivity.
  - destruct (IH (S i) w ks) as (t & E & Ht).
    exists (Out (line i x) :: t). go. rewrite E. go. split; [reflexivity | exact Ht].
Qed.

Lemma for_each_prints {A : Type} (l : list A) (line : A -> string) :
  forall w ks,
  exists t,
    for_each l (fun x => console_log (line x)) w ks = mkRun (Done tt) w ks t /\
    forallb inspecting t = true.
Proof.
  induction l as [|x l IH]; intros w ks; cbn [for_each].
  - exists []. split; reflexivity.
  - destruct (IH w ks) as (t & E & Ht).
    exists (Out (line x) :: t). go. rewrite E. go. split; [reflexivity | exact Ht].
Qed.

End Prompts.

Section Rewind.
Context {SH : Shell}.

Lemma counts_in N : (1 <= N <= 99)%Z -> In N counts.
Proof.
  intros H. unfold counts. apply in_map_iff. exists (Z.to_nat N).
  split; [lia | apply in_seq; lia].
Qed.

Lemma small_numbers :
  forallb (fun n => String.eqb (Js.show (Js.Fin n)) (Js.decimal n) &&
                    Js.eq (Js.parseInt (Js.decimal n)) (Js.Fin n)) counts = true.
Proof. vm_compute. reflexivity. Qed.

Lemma show_small N : (1 <= N <= 99)%Z -> Js.show (Js.Fin N) = Js.decimal N.
Proof.
  intros H. pose proof small_numbers as S. rewrite forallb_forall in S.
  specialize (S N (counts_in N H)). apply andb_prop in S as [S _].
  now apply String.eqb_eq.
Qed.

Lemma parse_small N : (1 <= N <= 99)%Z -> Js.parseInt (Js.decimal N) = Js.Fin N.
Proof.
  intros H. pose proof small_numbers as S. rewrite forallb_forall in S.
  specialize (S N (counts_in N H)). apply andb_prop in S as [_ S].
  destruct (Js.parseInt (Js.decimal N)) as [|z|b]; try discriminate S.
  cbn [Js.eq] in S. apply Z.eqb_eq in S. now subst.
Qed.

Lemma getCommits_done n w :
  exists commits, forall ks,
    Res.getCommits n w ks =
    mkRun (Done commits)
          (snd (sh (ExecSync ("git log -" ++ Js.show n ++ " " ++ LOG_FORMAT)%string) w)) ks
          [Ran (ExecSync ("git log -" ++ Js.show n ++ " " ++ LOG_FORMAT)%string)
               (fst (sh (ExecSync ("git log -" ++ Js.show n ++ " " ++ LOG_FORMAT)%string) w))].
Proof.
  unfold Res.getCommits.
  set (c := ("git log -" ++ Js.show n ++ " " ++ LOG_FORMAT)%string).
  destruct (succeeded (fst (sh (ExecSync c) w))) eqn:Eq.
  - destruct (Js.truthy (Js.trim (stdout (fst (sh (ExecSync c) w))))) eqn:Et;
      eexists; intros ks; go; rewrite res_run_eq; cbv zeta; rewrite Eq; go;
      rewrite Et; go; reflexivity.
  - exists []. intros ks. go. rewrite res_run_eq. cbv zeta. rewrite Eq. go. reflexivity.
Qed.

(** Once the mode is chosen, the rewind runs one reset and, after it,
    at most a query for the new HEAD. *)
Lemma executeRewind_mutations n mode w ks :
  mutations (trace (Res.executeRewind n mode w ks)) =
  [rewind mode ("HEAD~" ++ Js.show n)].
Proof.
  unfold Res.executeRewind. cbv zeta. go. fold (rewind mode ("HEAD~" ++ Js.show n)).
  destruct (succeeded _); go.
  - rewrite res_run_eq. cbv zeta. destruct (succeeded _); go; reflexivity.
  - reflexivity.
Qed.

End Rewind.

Section RewindFlow.
Context {SH : Shell}.

Lemma validateCount_ok count N :
  (1 <= N <= 99)%Z -> Js.parseInt count = Js.Fin N -> Res.validateCount count = None.
Proof.
  intros H E. unfold Res.validateCount. cbv zeta. rewrite E. cbn [Js.lt].
  destruct (Z.ltb_spec 0 N); [|lia]. destruct (Z.ltb_spec N 100); [|lia]. reflexivity.
Qed.

(** The rewind flow once the count is settled, by a preset or by a
    typed line, and the mode is answered with mixed. *)
Lemma rewind_mixed_from_count count N modeKey w ks pre :
  (1 <= N <= 99)%Z -> Js.parseInt count = Js.Fin N ->
  modeKey = Pick 1 \/ modeKey = Enter ->
  mutations pre = [] ->
  forall r,
  r = after pre
        (andThen
           (fun commits : list Res.Commit =>
              for_each_i 0 commits (fun index commit =>
                console_log ("  " ++ Js.show_nat (index + 1) ++ ". " ++ Res.listed commit)%string) ;;
              console_log Js.nl ;;
              mode <- select "请选择回退模式：" Res.rewindModes 1 ;;
              (if String.eqb mode "hard" then
                 console_log (Js.nl ++ "⚠️  警告：此操作将永久删除以下内容：")%string ;;
                 console_log ("   - 最近 " ++ Js.show (Js.parseInt count) ++ " 次提交的所有修改")%string ;;
                 console_log ("   - 工作区中未提交的更改" ++ Js.nl)%string ;;
                 console_log ("❌ 此操作不可恢复！" ++ Js.nl)%string ;;
                 _ <- input ("请输入 " ++ Js.dq ++ "yes" ++ Js.dq ++ " 确认执行 hard reset：")%string
                            Res.validateYes ;;
                 ret tt
               else ret tt) ;;
              Res.executeRewind (Js.parseInt count) mode)
           (Res.getCommits (Js.parseInt count) w (modeKey :: ks))) ->
  mutations (trace r) = [rewind "mixed" ("HEAD~" ++ Js.decimal N)].
Proof.
  intros HN Hp Hm Hpre r Er. rewrite Hp in Er.
  destruct (getCommits_done (Js.Fin N) w) as (commits & Eg).
  rewrite Eg in Er. go_in Er.
  match type of Er with
  | context [for_each_i 0 ?l (fun i x => console_log (@?g i x)) ?w' ?ks'] =>
      destruct (for_each_i_prints l g 0 w' ks') as (t & Et & Ht)
  end.
  cbv beta in Et. rewrite Et in Er. go_in Er.
  assert (Es : select "请选择回退模式：" Res.rewindModes 1
                 (snd (sh (ExecSync ("git log -" ++ Js.show (Js.Fin N) ++ " " ++ LOG_FORMAT)%string) w))
                 (modeKey :: ks) =
               mkRun (Done "mixed")
                 (snd (sh (ExecSync ("git log -" ++ Js.show (Js.Fin N) ++ " " ++ LOG_FORMAT)%string) w))
                 ks [Asked (Select "请选择回退模式：" Res.rewindModes 1); Got modeKey]).
  { destruct Hm as [-> | ->]; [apply select_pick | apply select_enter]; reflexivity. }
  rewrite Es in Er. go_in Er.
  change (String.eqb "mixed" "hard") with false in Er. go_in Er.
  subst r. rewrite trace_after, mutations_app, executeRewind_mutations.
  rewrite (show_small N HN).
  rewrite !mutations_app, Hpre, (inspecting_mutations _ Ht). reflexivity.
Qed.

(** C7.  For every N from 1 to 99: when the operator settles the count
    N (by the preset that reads N, or by "custom" and a line that
    [parseInt] reads as N, such as N in decimal) and answers the mode
    prompt with mixed (by picking it, or with Enter, mixed being
    preselected), the rewind flow runs exactly one mutating git command,
    [git reset --mixed HEAD~N]. *)
Theorem rewind_mixed_is_one_reset w ks N count cks modeKey :
  (1 <= N <= 99)%Z ->
  Js.parseInt count = Js.Fin N ->
  chooses cks count ->
  modeKey = Pick 1 \/ modeKey = Enter ->
  mutations (trace (Res.resetCommits w (cks ++ modeKey :: ks))) =
    [rewind "mixed" ("HEAD~" ++ Js.decimal N)] /\
  Js.parseInt (Js.decimal N) = Js.Fin N.
Proof.
  intros HN Hp Hc Hm. split; [|now apply parse_small].
  remember (Res.resetCommits w (cks ++ modeKey :: ks)) as r eqn:Er.
  unfold Res.resetCommits in Er. go_in Er.
  destruct Hc as [(i & -> & Hi) | ->]; cbn [app] in Er.
  - assert (Hpick : pickable Res.countChoices i = Some count /\
                    String.eqb count "custom" = false).
    { do 4 (destruct i as [|i]; [injection Hi as <-; split; reflexivity|]).
      destruct i; discriminate Hi. }
    destruct Hpick as (Hpick & Hnc).
    rewrite (select_pick _ _ _ _ _ _ _ Hpick) in Er. go_in Er.
    rewrite Hnc in Er. go_in Er.
    refine (rewind_mixed_from_count count N modeKey w ks _ HN Hp Hm _ r Er).
    reflexivity.
  - rewrite (select_pick _ _ _ 4 "custom") in Er by reflexivity. go_in Er.
    change (String.eqb "custom" "custom") with true in Er. cbv iota in Er.
    rewrite (input_accepted _ _ _ _ _ (validateCount_ok _ _ HN Hp)) in Er. go_in Er.
    refine (rewind_mixed_from_count count N modeKey w ks _ HN Hp Hm _ r Er).
    reflexivity.
Qed.

End RewindFlow.

Lemma rewind_mixed_is_one_reset_witness :
  mutations (trace (Res.resetCommits (SH := sandbox) tt
                      ([Pick 4; Line "12"] ++ [Enter; Pick 0]))) =
    [rewind "mixed" ("HEAD~" ++ Js.decimal 12)] /\
  Js.parseInt (Js.decimal 12) = Js.Fin 12.
Proof.
  apply (rewind_mixed_is_one_reset (SH := sandbox) tt [Pick 0] 12 "12"
           [Pick 4; Line "12"] Enter).
  - lia.
  - reflexivity.
  - right. reflexivity.
  - right. reflexivity.
Defined.

(** *** The confirmation of a hard rewind *)

Section Confirmation.
Context {SH : Shell}.

Lemma split_gentle (l1 l t1 t2 : list Event) x :
  forallb gentle l1 = true -> gentle x = false ->
  l1 ++ l = t1 ++ x :: t2 ->
  exists l', t1 = l1 ++ l' /\ l = l' ++ x :: t2.
Proof.
  revert t1. induction l1 as [|a l1 IH]; intros t1 Hg Hx E.
  - exists t1. split; [reflexivity | exact E].
  - cbn [forallb] in Hg. apply andb_prop in Hg as [Ha Hg].
    destruct t1 as [|b t1]; cbn [app] in E.
    + injection E as -> _. congruence.
    + injection E as -> E. destruct (IH t1 Hg Hx E) as (l' & -> & El).
      exists l'. split; [reflexivity | exact El].
Qed.

Lemma gentle_all (l t1 t2 : list Event) x :
  forallb gentle l = true -> gentle x = false -> l <> t1 ++ x :: t2.
Proof.
  intros Hg Hx E. rewrite forallb_forall in Hg.
  assert (H : gentle x = true) by (apply Hg; rewrite E; apply in_elt).
  congruence.
Qed.

Lemma confirmed_app l t : confirmed t -> confirmed (l ++ t).
Proof.
  intros (t0 & refused & -> & H). exists (l ++ t0), refused.
  split; [now rewrite app_assoc | exact H].
Qed.

Lemma only_guarded {A : Type} (m : M A) : only gentle m -> guarded m.
Proof.
  intros Hm w ks t1 x t2 Hx E. exfalso.
  exact (gentle_all _ _ _ _ (Hm w ks) Hx E).
Qed.

Lemma guarded_bind {A B : Type} (m : M A) (f : A -> M B) :
  only gentle m -> (forall a, guarded (f a)) -> guarded (bind m f).
Proof.
  intros Hm Hf w ks t1 x t2 Hx E. rewrite trace_bind in E.
  destruct (split_gentle _ _ _ _ _ (Hm w ks) Hx E) as (l' & -> & El).
  apply confirmed_app.
  destruct (outcome (m w ks)) eqn:Eo.
  - exact (Hf _ _ _ _ _ _ Hx El).
  - destruct l'; discriminate El.
  - destruct l'; discriminate El.
  - destruct l'; discriminate El.
  - destruct l'; discriminate El.
Qed.

Lemma inspecting_gentle e : inspecting e = true -> gentle e = true.
Proof.
  destruct e as [c r| | | | |]; try reflexivity.
  destruct c as [line|f args io|f args i]; try reflexivity.
  intros H. unfold gentle, hard_reset.
  destruct args as [|a [|b [|c [|d args]]]]; try reflexivity.
  destruct (String.eqb_spec f "git") as [->|]; [|reflexivity].
  destruct (String.eqb_spec a "reset") as [->|]; [|reflexivity].
  discriminate H.
Qed.

Lemma res_run_gentle cmd ig : only gentle (Res.run cmd ig).
Proof. exact (only_weaken _ _ _ inspecting_gentle (res_run cmd ig)). Qed.

Lemma res_getCommits_gentle n : only gentle (Res.getCommits n).
Proof. exact (only_weaken _ _ _ inspecting_gentle (res_getCommits n)). Qed.

#[local] Hint Resolve res_run_gentle res_getCommits_gentle : flows.

(** The validator of the confirmation lets the token through, and
    nothing else. *)
Lemma validateYes_spec s :
  (s = "yes" /\ Res.validateYes s = None) \/
  (s <> "yes" /\ Res.validateYes s = Some SAY_YES).
Proof.
  unfold Res.validateYes. destruct (String.eqb_spec s "yes"); [left | right]; auto.
Qed.

(** The confirmation prompt ends well only on the token, after
    refusing every line before it. *)
Lemma input_loop_yes ks :
  forall o ks' t,
    input_loop Res.validateYes ks = (o, ks', t) ->
    forallb gentle t = true /\
    forall v, o = Done v ->
      exists refused,
        t = refusals SAY_YES refused ++ [Got (Line "yes")] /\
        Forall other_line refused.
Proof.
  induction ks as [|k ks IH]; intros o ks' t E; cbn [input_loop] in E.
  - injection E as <- <- <-. split; [reflexivity | discriminate].
  - assert (Hline : forall s, line_of k = Some s ->
              match Res.validateYes s with
              | None => (Done s, ks, [Got k])
              | Some why =>
                  let '(o, ks'', t) := input_loop Res.validateYes ks in
                  (o, ks'', Got k :: Refused why :: t)
              end = (o, ks', t) ->
              forallb gentle t = true /\
              forall v, o = Done v ->
                exists refused,
                  t = refusals SAY_YES refused ++ [Got (Line "yes")] /\
                  Forall other_line refused).
    { intros s Hs E'. destruct (validateYes_spec s) as [(-> & Ev) | (Hn & Ev)];
        rewrite Ev in E'.
      - injection E' as <- <- <-. split; [reflexivity|]. intros v _.
        exists []. split; [|constructor].
        destruct k; try discriminate Hs. cbn in Hs. injection Hs as ->. reflexivity.
      - destruct (input_loop Res.validateYes ks) as [[o1 k1] t1].
        destruct (IH o1 k1 t1 eq_refl) as (Hg & Hd).
        injection E' as <- <- <-. split; [exact Hg|]. intros v Ev'.
        destruct (Hd v Ev') as (refused & -> & Hr).
        exists (k :: refused). split; [reflexivity|].
        constructor; [exists s; split; assumption | exact Hr]. }
    destruct k as [i|ixs|s|b| |].
    + injection E as <- <- <-. split; [reflexivity | discriminate].
    + injection E as <- <- <-. split; [reflexivity | discriminate].
    + exact (Hline s eq_refl E).
    + injection E as <- <- <-. split; [reflexivity | discriminate].
    + exact (Hline EmptyString eq_refl E).
    + injection E as <- <- <-. split; [reflexivity | discriminate].
Qed.

(** The reset itself, and what follows it. *)
Lemma executeRewind_shape n mode w ks :
  exists rest,
    trace (Res.executeRewind n mode w ks) =
    Ran (rewind mode ("HEAD~" ++ Js.show n))
        (fst (sh (rewind mode ("HEAD~" ++ Js.show n)) w)) :: rest /\
    forallb gentle rest = true.
Proof.
  unfold Res.executeRewind. cbv zeta. rewrite trace_bind, spawnSync_run.
  fold (rewind mode ("HEAD~" ++ Js.show n)).
  rewrite outcome_run, world_run, keys_run, trace_run.
  eexists. split; [reflexivity|].
  destruct (succeeded _).
  - match goal with |- forallb gentle (trace (?m ?w' ?ks')) = true =>
      assert (H : only gentle m) by only_tac; exact (H w' ks') end.
  - match goal with |- forallb gentle (trace (?m ?w' ?ks')) = true =>
      assert (H : only gentle m) by only_tac; exact (H w' ks') end.
Qed.

Lemma gentle_rewind mode target res :
  gentle (Ran (rewind mode target) res) = negb (String.eqb mode "hard").
Proof. reflexivity. Qed.

(** From the mode on: a hard rewind asks first. *)
Lemma guarded_from_mode n mode :
  guarded
    ((if String.eqb mode "hard" then
        console_log (Js.nl ++ "⚠️  警告：此操作将永久删除以下内容：")%string ;;
        console_log ("   - 最近 " ++ Js.show n ++ " 次提交的所有修改")%string ;;
        console_log ("   - 工作区中未提交的更改" ++ Js.nl)%string ;;
        console_log ("❌ 此操作不可恢复！" ++ Js.nl)%string ;;
        _ <- input ("请输入 " ++ Js.dq ++ "yes" ++ Js.dq ++ " 确认执行 hard reset：")%string
                   Res.validateYes ;;
        ret tt
      else ret tt) ;;
     Res.executeRewind n mode).
Proof.
  destruct (String.eqb mode "hard") eqn:Em.
  - intros w ks t1 x t2 Hx E. go_in E.
    unfold input in E.
    destruct (input_loop Res.validateYes ks) as [[o k1] t] eqn:El.
    destruct (input_loop_yes ks o k1 t El) as (Hg & Hd).
    destruct (executeRewind_shape n mode w k1) as (rest & Er & Hrest).
    destruct o as [v| | | |]; go_in E; rewrite ?trace_after, ?trace_run in E;
      try (exfalso; revert E; apply gentle_all; [|exact Hx];
           cbn [forallb app gentle andb]; exact Hg).
    rewrite Er in E.
    destruct (Hd v eq_refl) as (refused & -> & Hr).
    match type of E with ?a :: ?b :: ?c :: ?d :: ?e :: _ ++ ?l = _ =>
      destruct (split_gentle ([a; b; c; d; e] ++
                              refusals SAY_YES refused ++ [Got (Line "yes")])
                             l t1 t2 x) as (l' & -> & E')
    end; [ | exact Hx | rewrite <- app_assoc; exact E | ].
    { cbn [forallb app gentle andb]. exact Hg. }
    destruct l' as [|e l'].
    + rewrite app_nil_r.
      exists [Out (Js.nl ++ "⚠️  警告：此操作将永久删除以下内容：")%string;
              Out ("   - 最近 " ++ Js.show n ++ " 次提交的所有修改")%string;
              Out ("   - 工作区中未提交的更改" ++ Js.nl)%string;
              Out ("❌ 此操作不可恢复！" ++ Js.nl)%string], refused.
      split; [reflexivity | exact Hr].
    + injection E' as _ E'. exfalso. exact (gentle_all _ _ _ _ Hrest Hx E').
  - apply only_guarded. apply only_bind; [apply only_ret|]. intros _ w ks.
    destruct (executeRewind_shape n mode w ks) as (rest & -> & Hrest).
    cbn [forallb]. rewrite gentle_rewind, Em. exact Hrest.
Qed.

Lemma guarded_resetCommits : guarded Res.resetCommits.
Proof.
  unfold Res.resetCommits.
  apply guarded_bind; [only_tac | intros _].
  apply guarded_bind; [only_tac | intros count0].
  apply guarded_bind; [only_tac | intros count].
  cbv zeta.
  apply guarded_bind; [only_tac | intros _].
  apply guarded_bind; [only_tac | intros commits].
  apply guarded_bind; [only_tac | intros _].
  apply guarded_bind; [only_tac | intros _].
  apply guarded_bind; [only_tac | intros mode].
  apply guarded_from_mode.
Qed.

(** A refused line leaves the prompt where it was. *)
Lemma spliced_input msg validate k s why w ks :
  line_of k = Some s -> validate s = Some why ->
  spliced [Asked (Input msg)] [Got k; Refused why]
          (input msg validate w ks) (input msg validate w (k :: ks)).
Proof.
  intros Hk Hv. unfold input.
  assert (E : input_loop validate (k :: ks) =
              let '(o, ks'', t) := input_loop validate ks in
              (o, ks'', Got k :: Refused why :: t)).
  { destruct k; try discriminate Hk; cbn in Hk; injection Hk as <-;
      cbn [input_loop]; rewrite Hv; reflexivity. }
  rewrite E. destruct (input_loop validate ks) as [[o k1] t].
  repeat split. exists t. split; reflexivity.
Qed.

Lemma spliced_andThen {A B : Type} (f : A -> M B) a ins (r r' : Run A) :
  spliced a ins r r' -> spliced a ins (andThen f r) (andThen f r').
Proof.
  destruct r as [o w ks t], r' as [o' w' ks' t'].
  intros (Eo & Ew & Ek & b & Et & Et'). cbn in Eo, Ew, Ek, Et, Et'. subst.
  unfold andThen, after. cbn [outcome world keys trace].
  destruct o; cbn [outcome world keys trace]; repeat split;
    try (exists b; split; reflexivity).
  exists (b ++ trace (f a0 w ks)). now rewrite !app_assoc.
Qed.

Lemma spliced_after {A : Type} p a ins (r r' : Run A) :
  spliced a ins r r' -> spliced (p ++ a) ins (after p r) (after p r').
Proof.
  intros (Eo & Ew & Ek & b & Et & Et'). unfold after.
  repeat split; cbn [outcome world keys trace]; try assumption.
  exists b. rewrite Et, Et'. now rewrite !app_assoc.
Qed.

(** The lines a loop prints do not depend on where it runs. *)
Lemma for_each_i_lines {A : Type} (l : list A) (line : nat -> A -> string) :
  forall i, exists t, forall w ks,
    for_each_i i l (fun index x => console_log (line index x)) w ks =
    mkRun (Done tt) w ks t.
Proof.
  induction l as [|x l IH]; intros i; cbn [for_each_i].
  - exists []. reflexivity.
  - destruct (IH (S i)) as (t & E).
    exists (Out (line i x) :: t). intros w ks. go. rewrite E. go. reflexivity.
Qed.

(** With the count settled and the mode answered with hard, a line
    other than the token changes nothing in the run but the refusal. *)
Lemma refused_line_is_spliced w cks count k ks :
  chooses cks count -> Res.validateCount count = None -> other_line k ->
  exists t0,
    spliced (t0 ++ [Asked (Input CONFIRM_HARD)]) [Got k; Refused SAY_YES]
            (Res.resetCommits w (cks ++ Pick 2 :: ks))
            (Res.resetCommits w (cks ++ Pick 2 :: k :: ks)).
Proof.
  intros Hc Hv (s & Hk & Hs).
  assert (Hy : Res.validateYes s = Some SAY_YES).
  { destruct (validateYes_spec s) as [(? & _) | (_ & E)]; [contradiction | exact E]. }
  destruct (getCommits_done (Js.parseInt count) w) as (commits & Eg).
  destruct (for_each_i_lines commits
              (fun index commit =>
                 ("  " ++ Js.show_nat (index + 1) ++ ". " ++ Res.listed commit)%string) 0)
    as (tp & Ep).
  remember (Res.resetCommits w (cks ++ Pick 2 :: ks)) as quiet eqn:Eq.
  remember (Res.resetCommits w (cks ++ Pick 2 :: k :: ks)) as typed eqn:Et.
  unfold Res.resetCommits in Eq, Et. go_in Eq. go_in Et.
  destruct Hc as [(i & -> & Hi) | ->]; cbn [app] in Eq, Et.
  - assert (Hpick : pickable Res.countChoices i = Some count /\
                    String.eqb count "custom" = false).
    { do 4 (destruct i as [|i]; [injection Hi as <-; split; reflexivity|]).
      destruct i; discriminate Hi. }
    destruct Hpick as (Hpick & Hnc).
    rewrite (select_pick _ _ _ _ _ _ _ Hpick) in Eq. go_in Eq.
    rewrite (select_pick _ _ _ _ _ _ _ Hpick) in Et. go_in Et.
    rewrite Hnc in Eq, Et. go_in Eq. go_in Et.
    rewrite Eg in Eq. rewrite Eg in Et. go_in Eq. go_in Et.
    rewrite Ep in Eq. rewrite Ep in Et. go_in Eq. go_in Et.
    rewrite (select_pick _ _ _ 2 "hard") in Eq by reflexivity.
    rewrite (select_pick _ _ _ 2 "hard") in Et by reflexivity.
    go_in Eq. go_in Et.
    change (String.eqb "hard" "hard") with true in Eq, Et. go_in Eq. go_in Et.
    match type of Eq with _ = after ?pre _ => exists pre end.
    rewrite Eq, Et. apply spliced_after. do 2 apply spliced_andThen.
    exact (spliced_input _ _ _ _ _ _ _ Hk Hy).
  - rewrite (select_pick _ _ _ 4 "custom") in Eq by reflexivity. go_in Eq.
    rewrite (select_pick _ _ _ 4 "custom") in Et by reflexivity. go_in Et.
    change (String.eqb "custom" "custom") with true in Eq, Et.
    cbv iota in Eq, Et.
    rewrite (input_accepted _ _ _ _ _ Hv) in Eq. go_in Eq.
    rewrite (input_accepted _ _ _ _ _ Hv) in Et. go_in Et.
    rewrite Eg in Eq. rewrite Eg in Et. go_in Eq. go_in Et.
    rewrite Ep in Eq. rewrite Ep in Et. go_in Eq. go_in Et.
    rewrite (select_pick _ _ _ 2 "hard") in Eq by reflexivity.
    rewrite (select_pick _ _ _ 2 "hard") in Et by reflexivity.
    go_in Eq. go_in Et.
    change (String.eqb "hard" "hard") with true in Eq, Et. go_in Eq. go_in Et.
    match type of Eq with _ = after ?pre _ => exists pre end.
    rewrite Eq, Et. apply spliced_after. do 2 apply spliced_andThen.
    exact (spliced_input _ _ _ _ _ _ _ Hk Hy).
Qed.

(** C1.  In the rewind flow of the reset tool, whatever the operator
    does: a [git reset --hard] is run only right after the confirmation
    prompt has been answered with the line "yes", every answer given to
    that prompt before having been a line other than "yes" that the
    prompt refused.  And with the count settled and the mode answered
    with hard, a line other than "yes" (the empty line included) is
    refused and the prompt goes on: the run is what it would have been
    without that line, with the refusal put in after the prompt, so no
    command is run for it. *)
Theorem hard_reset_needs_yes w :
  (forall ks t1 target res t2,
     trace (Res.resetCommits w ks) = t1 ++ Ran (rewind "hard" target) res :: t2 ->
     confirmed t1) /\
  (forall cks count k ks,
     chooses cks count -> Res.validateCount count = None -> other_line k ->
     exists t0,
       spliced (t0 ++ [Asked (Input CONFIRM_HARD)]) [Got k; Refused SAY_YES]
               (Res.resetCommits w (cks ++ Pick 2 :: ks))
               (Res.resetCommits w (cks ++ Pick 2 :: k :: ks))).
Proof.
  split.
  - intros ks t1 target res t2 E.
    exact (guarded_resetCommits w ks t1 (Ran (rewind "hard" target) res) t2 eq_refl E).
  - intros cks count k ks. apply refused_line_is_spliced.
Qed.

End Confirmation.

Lemma hard_reset_needs_yes_witness :
  confirmed
    (firstn 16 (trace (Res.resetCommits (SH := sandbox) tt
                         [Pick 0; Pick 2; Line "no"; Line "yes"]))) /\
  exists t0,
    spliced (SH := sandbox)
            (t0 ++ [Asked (Input CONFIRM_HARD)]) [Got (Line "no"); Refused SAY_YES]
            (Res.resetCommits (SH := sandbox) tt ([Pick 0] ++ Pick 2 :: [Line "yes"]))
            (Res.resetCommits (SH := sandbox) tt
               ([Pick 0] ++ Pick 2 :: Line "no" :: [Line "yes"])).
Proof.
  split.
  - apply (proj1 (hard_reset_needs_yes (SH := sandbox) tt)
             [Pick 0; Pick 2; Line "no"; Line "yes"]
             (firstn 16 (trace (Res.resetCommits (SH := sandbox) tt
                                  [Pick 0; Pick 2; Line "no"; Line "yes"])))
             "HEAD~1" (ok EmptyString)
             (skipn 17 (trace (Res.resetCommits (SH := sandbox) tt
                                 [Pick 0; Pick 2; Line "no"; Line "yes"])))).
    vm_compute. reflexivity.
  - apply (proj2 (hard_reset_needs_yes (SH := sandbox) tt)
             [Pick 0] "1" (Line "no") [Line "yes"]).
    + left. exists 0. split; reflexivity.
    + vm_compute. reflexivity.
    + exists "no". split; [reflexivity | discriminate].
Defined.

(** *** Queries *)

Section Queries.
Context {SH : Shell}.

Lemma query_ret {A : Type} (a : A) : query (ret a).
Proof. intros w. exists a, w, []. split; reflexivity. Qed.

Lemma query_bind {A B : Type} (m : M A) (f : A -> M B) :
  query m -> (forall a, query (f a)) -> query (bind m f).
Proof.
  intros Hm Hf w. destruct (Hm w) as (a & w1 & t1 & I1 & E1).
  destruct (Hf a w1) as (b & w2 & t2 & I2 & E2).
  exists b, w2, (t1 ++ t2). split.
  - now rewrite forallb_app, I1, I2.
  - intros ks. rewrite bind_andThen, E1, andThen_done, E2. reflexivity.
Qed.

Lemma query_try_catch {A : Type} (m : M A) (h : Error -> M A) :
  query m -> query (try_catch m h).
Proof.
  intros Hm w. destruct (Hm w) as (a & w1 & t1 & I1 & E1).
  exists a, w1, t1. split; [exact I1|].
  intros ks. rewrite try_catch_recover, E1. reflexivity.
Qed.

Lemma query_log s : query (console_log s).
Proof. intros w. exists tt, w, [Out s]. split; reflexivity. Qed.

Lemma stash_run_eq cmd ig w ks :
  Stash.run cmd ig w ks =
  mkRun (let q := fst (sh (ExecSync cmd) w) in
         if succeeded q then Done (Js.trim (stdout q))
         else if ig then Done EmptyString else Thrown (ECommand cmd q))
        (snd (sh (ExecSync cmd) w)) ks
        [Ran (ExecSync cmd) (fst (sh (ExecSync cmd) w))].
Proof.
  unfold Stash.run, execSync. go.
  destruct (succeeded (fst (sh (ExecSync cmd) w))); go; [reflexivity|].
  destruct ig; go; reflexivity.
Qed.

Lemma query_stash_run cmd : query (Stash.run cmd true).
Proof.
  intros w.
  exists (if succeeded (fst (sh (ExecSync cmd) w))
          then Js.trim (stdout (fst (sh (ExecSync cmd) w))) else EmptyString),
         (snd (sh (ExecSync cmd) w)), [Ran (ExecSync cmd) (fst (sh (ExecSync cmd) w))].
  split; [reflexivity|]. intros ks. rewrite stash_run_eq. cbv zeta.
  destruct (succeeded _); reflexivity.
Qed.

Lemma query_isGitRepo : query Stash.isGitRepo.
Proof.
  intros w. unfold Stash.isGitRepo.
  exists (succeeded (fst (sh PROBE w))), (snd (sh PROBE w)),
         [Ran PROBE (fst (sh PROBE w))].
  split; [reflexivity|]. intros ks. go. reflexivity.
Qed.

Lemma query_getCurrentBranch : query Stash.getCurrentBranch.
Proof.
  intros w. unfold Stash.getCurrentBranch.
  set (c := ExecSync "git branch --show-current").
  exists (if succeeded (fst (sh c w))
          then Some (Js.trim (stdout (fst (sh c w)))) else None),
         (snd (sh c w)), [Ran c (fst (sh c w))].
  split; [reflexivity|]. intros ks. go. rewrite stash_run_eq. cbv zeta.
  fold c. destruct (succeeded _); go; reflexivity.
Qed.

Lemma query_getWorkingStatus : query Stash.getWorkingStatus.
Proof.
  unfold Stash.getWorkingStatus. apply query_try_catch.
  repeat (apply query_bind; [apply query_stash_run | intros ?]).
  apply query_ret.
Qed.

Lemma query_getStashList : query Stash.getStashList.
Proof.
  unfold Stash.getStashList. apply query_try_catch.
  apply query_bind; [apply query_stash_run | intros output].
  destruct (Js.truthy output); apply query_ret.
Qed.

Lemma query_hasChanges : query Stash.hasChanges.
Proof.
  unfold Stash.hasChanges.
  apply query_bind; [apply query_getWorkingStatus | intros ?]. apply query_ret.
Qed.

Lemma trace_andThen {A B : Type} (f : A -> M B) (r : Run A) :
  trace (andThen f r) =
  trace r ++ match outcome r with
             | Done a => trace (f a (world r) (keys r))
             | _ => []
             end.
Proof. destruct r as [o w ks t]. destruct o; cbn; now rewrite ?app_nil_r. Qed.

Lemma trace_recover {A : Type} (h : Error -> M A) (r : Run A) :
  trace (recover h r) =
  trace r ++ match outcome r with
             | Thrown e => trace (h e (world r) (keys r))
             | _ => []
             end.
Proof. destruct r as [o w ks t]. destruct o; cbn; now rewrite ?app_nil_r. Qed.

(** A list prompt with something to choose is rendered first. *)
Lemma select_asks msg cs initial w ks :
  selectable cs = true ->
  exists t, trace (select msg cs initial w ks) = Asked (Select msg cs initial) :: t.
Proof.
  intros Hs. unfold select. rewrite Hs. unfold answer.
  destruct ks as [|k ks]; [eexists; reflexivity|].
  destruct k; try (eexists; reflexivity);
    match goal with |- context [match ?x with _ => _ end] => destruct x end;
    eexists; reflexivity.
Qed.

End Queries.

(** *** The menu of the stash tool *)

Section StashMenu.
Context {SH : Shell}.

Lemma mainChoices_stash changes stashes :
  In (Some "stash") (map name (Stash.mainChoices changes stashes)) <-> changes = true.
Proof.
  unfold Stash.mainChoices. destruct changes, stashes as [|s l]; cbn; split; intros H;
    try reflexivity; try discriminate H; auto;
    repeat (destruct H as [H|H]; try discriminate H); contradiction.
Qed.

Lemma mainChoices_manage changes stashes :
  In (Some "manage") (map name (Stash.mainChoices changes stashes)) <-> stashes <> [].
Proof.
  unfold Stash.mainChoices. destruct changes, stashes as [|s l]; cbn; split; intros H;
    try discriminate; auto; try (exfalso; now apply H);
    repeat (destruct H as [H|H]; try discriminate H); contradiction.
Qed.

Lemma mainChoices_list changes stashes :
  In (Some "list") (map name (Stash.mainChoices changes stashes)) <-> stashes <> [].
Proof.
  unfold Stash.mainChoices. destruct changes, stashes as [|s l]; cbn; split; intros H;
    try discriminate; auto 6; try (exfalso; now apply H);
    repeat (destruct H as [H|H]; try discriminate H); contradiction.
Qed.

Lemma mainChoices_nil changes stashes :
  Stash.mainChoices changes stashes = [] <-> changes = false /\ stashes = [].
Proof.
  unfold Stash.mainChoices. destruct changes, stashes as [|s l]; cbn; split;
    try discriminate; auto; intros (H1 & H2); discriminate.
Qed.

Lemma maybe_log_run (c : bool) s w ks :
  (if c then console_log s else ret tt) w ks =
  mkRun (Done tt) w ks (if c then [Out s] else []).
Proof. destruct c; reflexivity. Qed.

Lemma inspecting_maybe (c : bool) s :
  forallb inspecting (if c then [Out s] else []) = true.
Proof. destruct c; reflexivity. Qed.

Lemma branch_line_run (b : option string) p w ks :
  (match b with
   | Some b0 => if Js.truthy b0 then console_log (p ++ b0)%string else ret tt
   | None => ret tt
   end) w ks =
  mkRun (Done tt) w ks
        (match b with
         | Some b0 => if Js.truthy b0 then [Out (p ++ b0)%string] else []
         | None => []
         end).
Proof. destruct b as [b0|]; [destruct (Js.truthy b0)|]; reflexivity. Qed.

Lemma inspecting_branch_line (b : option string) p :
  forallb inspecting
    (match b with
     | Some b0 => if Js.truthy b0 then [Out (p ++ b0)%string] else []
     | None => []
     end) = true.
Proof. destruct b as [b0|]; [destruct (Js.truthy b0)|]; reflexivity. Qed.

Lemma stash_menu_within w ks budget :
  succeeded (fst (sh PROBE w)) = true ->
  exists stashes changes,
    outcome (stash_survey w []) = Done (stashes, changes) /\
    (changes = true \/ stashes <> [] ->
       exists pre rest,
         forallb inspecting pre = true /\
         trace (Stash.main_within budget w ks) =
         pre ++ Asked (Select STASH_MENU
                         (Stash.mainChoices changes stashes ++ [choice "cancel" "❌ 退出"])
                         0) :: rest) /\
    (changes = false -> stashes = [] ->
       outcome (Stash.main_within budget w ks) = Done tt /\
       forallb inspecting (trace (Stash.main_within budget w ks)) = true /\
       exists t0, trace (Stash.main_within budget w ks) =
                  t0 ++ [Out Stash.NOTHING_TO_DO; Out STASH_HINT]).
Proof.
  intros Hp.
  destruct (query_getCurrentBranch (snd (sh PROBE w))) as (b & w2 & t2 & I2 & E2).
  destruct (query_getWorkingStatus w2) as (st & w3 & t3 & I3 & E3).
  destruct (query_getStashList w3) as (stashes & w4 & t4 & I4 & E4).
  destruct (query_hasChanges w4) as (changes & w5 & t5 & I5 & E5).
  exists stashes, changes. split; [|split].
  - unfold stash_survey, Stash.isGitRepo. go. fold PROBE.
    rewrite E2. go. rewrite E3. go. rewrite E4. go. rewrite E5. go. reflexivity.
  - intros Hsome.
    remember (Stash.main_within budget w ks) as r eqn:Er.
    unfold Stash.main_within, Stash.isGitRepo in Er. go_in Er. fold PROBE in Er.
    rewrite Hp in Er. cbn [negb] in Er. go_in Er.
    rewrite E2 in Er. go_in Er. rewrite E3 in Er. go_in Er. rewrite E4 in Er. go_in Er.
    rewrite branch_line_run in Er. go_in Er.
    repeat (rewrite maybe_log_run in Er; go_in Er).
    rewrite E5 in Er. go_in Er.
    destruct (Stash.mainChoices changes stashes) as [|c l] eqn:Em.
    { apply mainChoices_nil in Em as (-> & ->).
      destruct Hsome as [H|H]; [discriminate H | now elim H]. }

    assert (Hsel : selectable ((c :: l) ++ [choice "cancel" "❌ 退出"]) = true).
    { unfold selectable. rewrite existsb_app. apply orb_true_r. }
    destruct (select_asks STASH_MENU _ 0 w5 ks Hsel) as (t & Et).
    subst r. rewrite trace_after, trace_try_catch, trace_bind.
    unfold STASH_MENU in Et |- *. rewrite Et.
    match goal with
    | |- exists pre rest, _ /\ ?P ++ ((?a :: ?t) ++ ?x) ++ ?y = _ =>
        exists P, ((t ++ x) ++ y)
    end.
    split; [|reflexivity].
    unfold PROBE. cbn [forallb].
    rewrite !forallb_app, I2, I3, I4, I5, inspecting_branch_line, !inspecting_maybe.
    reflexivity.
  - intros -> ->.
    remember (Stash.main_within budget w ks) as r eqn:Er.
    unfold Stash.main_within, Stash.isGitRepo in Er. go_in Er. fold PROBE in Er.
    rewrite Hp in Er. cbn [negb] in Er. go_in Er.
    rewrite E2 in Er. go_in Er. rewrite E3 in Er. go_in Er. rewrite E4 in Er. go_in Er.
    rewrite branch_line_run in Er. go_in Er.
    repeat (rewrite maybe_log_run in Er; go_in Er).
    rewrite E5 in Er. go_in Er.
    change (Stash.mainChoices false []) with (@nil Choice) in Er. go_in Er.
    subst r. go. split; [reflexivity|]. split.
    + unfold PROBE. cbn [forallb].
      rewrite !forallb_app, I2, I3, I4, I5, inspecting_branch_line, !inspecting_maybe.
      reflexivity.
    + match goal with
      | |- exists t0, ?a :: ?b :: (?P ++ [?x]) ++ [?y] = _ => exists (a :: b :: P)
      end.
      cbn [app]. rewrite <- app_assoc. reflexivity.
Qed.


End StashMenu.


(** *** What follows a stash operation *)

Section Recount.
Context {SH : Shell}.

Lemma split_calm (l1 l t1 t2 : list Event) c res :
  forallb calm l1 = true -> mutating c = true ->
  l1 ++ l = t1 ++ Ran c res :: t2 ->
  exists l', t1 = l1 ++ l' /\ l = l' ++ Ran c res :: t2.
Proof.
  revert t1. induction l1 as [|a l1 IH]; intros t1 Hg Hx E.
  - exists t1. split; [reflexivity | exact E].
  - cbn [forallb] in Hg. apply andb_prop in Hg as [Ha Hg].
    destruct t1 as [|b t1]; cbn [app] in E.
    + injection E as -> _. cbn [calm] in Ha. rewrite Hx in Ha. discriminate Ha.
    + injection E as -> E. destruct (IH t1 Hg Hx E) as (l' & -> & El).
      exists l'. split; [reflexivity | exact El].
Qed.

Lemma calm_all (l t1 t2 : list Event) c res :
  forallb calm l = true -> mutating c = true -> l <> t1 ++ Ran c res :: t2.
Proof.
  intros Hg Hx E. rewrite forallb_forall in Hg.
  assert (H : calm (Ran c res) = true) by (apply Hg; rewrite E; apply in_elt).
  cbn [calm] in H. rewrite Hx in H. discriminate H.
Qed.

Lemma head_split c0 R rest t1 c res t2 :
  Ran c0 R :: rest = t1 ++ Ran c res :: t2 ->
  forallb calm rest = true -> mutating c = true ->
  c = c0 /\ res = R /\ t2 = rest.
Proof.
  intros E Hr Hc. destruct t1 as [|e t1]; cbn [app] in E.
  - injection E as -> -> ->. auto.
  - injection E as _ E. exfalso. exact (calm_all _ _ _ _ _ Hr Hc E).
Qed.

Lemma followed_only {A : Type} op next (m : M A) : only calm m -> followed op next m.
Proof.
  intros Hm w ks t1 c res t2 E Hc. exfalso. exact (calm_all _ _ _ _ _ (Hm w ks) Hc E).
Qed.

(** What [f] gets from [m] has the property [Q]. *)
Lemma followed_bind_with {A B : Type} (Q : A -> Prop) op next (m : M A) (f : A -> M B) :
  only calm m ->
  (forall w ks a, outcome (m w ks) = Done a -> Q a) ->
  (forall a, Q a -> followed op next (f a)) ->
  followed op next (bind m f).
Proof.
  intros Hm HQ Hf w ks t1 c res t2 E Hc. rewrite trace_bind in E.
  destruct (split_calm _ _ _ _ _ _ (Hm w ks) Hc E) as (l' & -> & El).
  destruct (outcome (m w ks)) eqn:Eo; try (destruct l'; discriminate El).
  exact (Hf a (HQ w ks a Eo) _ _ _ _ _ _ El Hc).
Qed.

Lemma followed_bind {A B : Type} op next (m : M A) (f : A -> M B) :
  only calm m -> (forall a, followed op next (f a)) -> followed op next (bind m f).
Proof.
  intros Hm Hf. apply (followed_bind_with (fun _ => True)); auto.
Qed.

Lemma stash_run_calm cmd ig : only calm (Stash.run cmd ig).
Proof. unfold Stash.run. only_tac. Qed.

#[local] Hint Resolve stash_run_calm : flows.

Lemma stash_getWorkingStatus_calm : only calm Stash.getWorkingStatus.
Proof. unfold Stash.getWorkingStatus. only_tac. Qed.

#[local] Hint Resolve stash_getWorkingStatus_calm : flows.

Lemma stash_hasChanges_calm : only calm Stash.hasChanges.
Proof. unfold Stash.hasChanges. only_tac. Qed.

Lemma stash_getStashList_calm : only calm Stash.getStashList.
Proof. unfold Stash.getStashList. only_tac. Qed.

#[local] Hint Resolve stash_hasChanges_calm stash_getStashList_calm : flows.

(** [getStashList] runs its query, once, and reads the answer. *)
Lemma getStashList_eq w ks :
  Stash.getStashList w ks =
  mkRun (Done (stash_entries (fst (sh (ExecSync Stash.STASH_LIST) w))))
        (snd (sh (ExecSync Stash.STASH_LIST) w)) ks
        [Ran (ExecSync Stash.STASH_LIST) (fst (sh (ExecSync Stash.STASH_LIST) w))].
Proof.
  unfold Stash.getStashList, stash_entries. go. rewrite stash_run_eq. cbv zeta.
  destruct (succeeded (fst (sh (ExecSync Stash.STASH_LIST) w))); go.
  - destruct (Js.truthy _); go; reflexivity.
  - change (Js.truthy EmptyString) with false. go. reflexivity.
Qed.

Lemma followed_pop stashRef :
  followed (eq (stash_pop stashRef)) (recount Stash.stash_remaining [])
           (Stash.popStash stashRef).
Proof.
  unfold Stash.popStash.
  apply followed_bind; [only_tac | intros _].
  apply followed_bind; [only_tac | intros dirty].
  apply followed_bind; [only_tac | intros go].
  destruct (negb go); [apply followed_only; only_tac|].
  intros w ks t1 c res t2 E Hc. go_in E.
  destruct (succeeded (fst (sh (SpawnSync "git" ["stash"; "pop"; stashRef] Inherit) w)))
    eqn:Es; go_in E.
  - rewrite getStashList_eq in E. go_in E.
    apply head_split in E as (-> & -> & ->); [|reflexivity|exact Hc].
    split; [reflexivity|]. unfold recount. rewrite Es. eexists. eexists. reflexivity.
  - apply head_split in E as (-> & -> & ->); [|reflexivity|exact Hc].
    split; [reflexivity|]. unfold recount. rewrite Es. reflexivity.
Qed.

Lemma followed_drop stashRef :
  followed (eq (stash_drop stashRef)) (recount Stash.stash_remaining [])
           (Stash.dropStash stashRef).
Proof.
  unfold Stash.dropStash.
  apply followed_bind; [only_tac | intros stashInfo].
  apply followed_bind; [only_tac | intros _].
  apply followed_bind; [only_tac | intros _].
  apply followed_bind; [only_tac | intros confirmed].
  destruct (negb confirmed); [apply followed_only; only_tac|].
  intros w ks t1 c res t2 E Hc. go_in E.
  destruct (succeeded (fst (sh (SpawnSync "git" ["stash"; "drop"; stashRef] Inherit) w)))
    eqn:Es; go_in E.
  - rewrite getStashList_eq in E. go_in E.
    apply head_split in E as (-> & -> & ->); [|reflexivity|exact Hc].
    split; [reflexivity|]. unfold recount. rewrite Es. eexists. eexists. reflexivity.
  - apply head_split in E as (-> & -> & ->); [|reflexivity|exact Hc].
    split; [reflexivity|]. unfold recount. rewrite Es. reflexivity.
Qed.

(** The arguments [stashChanges] settles on start with [stash push]. *)
Lemma push_arguments (option : string) w ks args :
  outcome
    ((if String.eqb option "message" then
        message <- input "请输入说明信息：" Stash.validateMessage ;;
        ret ["stash"; "push"; "-m"; message]
      else if String.eqb option "include-untracked" then ret ["stash"; "push"; "-u"]
      else if String.eqb option "keep-index" then ret ["stash"; "push"; "--keep-index"]
      else if String.eqb option "all" then ret ["stash"; "push"; "-a"]
      else ret ["stash"; "push"]) w ks) = Done args ->
  exists options, args = "stash" :: "push" :: options.
Proof.
  destruct (String.eqb option "message").
  { rewrite bind_andThen.
    destruct (input "请输入说明信息：" Stash.validateMessage w ks) as [o w1 k1 t].
    destruct o; cbn; intros H; try discriminate H.
    injection H as <-. eexists. reflexivity. }
  repeat (match goal with |- context [if ?b then _ else _] => destruct b end);
    cbn; intros H; injection H as <-; eexists; reflexivity.
Qed.

Lemma followed_push :
  followed stash_push (recount Stash.stash_count [Out STASH_PUSHED_HINT])
           Stash.stashChanges.
Proof.
  unfold Stash.stashChanges.
  apply followed_bind; [only_tac | intros _].
  apply followed_bind; [only_tac | intros status].
  destruct (_ && _); [apply followed_only; only_tac|].
  do 6 (apply followed_bind; [only_tac | intros ?]).
  apply (followed_bind_with (fun args => exists options, args = "stash" :: "push" :: options)).
  { only_tac. }
  { intros w ks args. apply push_arguments. }
  intros args (options & ->).
  apply followed_bind; [only_tac | intros _].
  intros w ks t1 c res t2 E Hc. go_in E.
  destruct (succeeded (fst (sh (SpawnSync "git" ("stash" :: "push" :: options) Inherit) w)))
    eqn:Es; go_in E.
  - rewrite getStashList_eq in E. go_in E.
    apply head_split in E as (-> & -> & ->); [|reflexivity|exact Hc].
    split; [exists options; reflexivity|]. unfold recount. rewrite Es. eexists. eexists. reflexivity.
  - apply head_split in E as (-> & -> & ->); [|reflexivity|exact Hc].
    split; [exists options; reflexivity|]. unfold recount. rewrite Es. reflexivity.
Qed.

Lemma followed_clear :
  followed (eq STASH_CLEAR) (verdict STASH_CLEARED STASH_NOT_CLEARED)
           Stash.clearAllStashes.
Proof.
  unfold Stash.clearAllStashes.
  do 7 (apply followed_bind; [only_tac | intros ?]).
  intros w ks t1 c res t2 E Hc. go_in E. unfold verdict.
  destruct (succeeded (fst (sh (SpawnSync "git" ["stash"; "clear"] Inherit) w)))
    eqn:Es; go_in E.
  - apply head_split in E as (-> & -> & ->); [|reflexivity|exact Hc].
    split; [reflexivity|]. rewrite Es. reflexivity.
  - apply head_split in E as (-> & -> & ->); [|reflexivity|exact Hc].
    split; [reflexivity|]. rewrite Es. reflexivity.
Qed.


End Recount.



(** *** The branches the deletion tool touches *)

Section Sparing.
Context {SH : Shell}.
Variable current : option string.

Lemma sparing_only {A : Type} (m : M A) : only keeps_branches m -> sparing current m.
Proof.
  intros Hm w ks flag b res Hin. exfalso.
  specialize (Hm w ks). rewrite forallb_forall in Hm.
  specialize (Hm _ Hin). discriminate Hm.
Qed.

Lemma sparing_bind_with {A B : Type} (Q : A -> Prop) (m : M A) (f : A -> M B) :
  sparing current m ->
  (forall w ks a, outcome (m w ks) = Done a -> Q a) ->
  (forall a, Q a -> sparing current (f a)) ->
  sparing current (bind m f).
Proof.
  intros Hm HQ Hf w ks flag b res Hin. rewrite trace_bind in Hin.
  apply in_app_or in Hin as [Hin|Hin]; [exact (Hm _ _ _ _ _ Hin)|].
  destruct (outcome (m w ks)) eqn:Eo; try contradiction.
  exact (Hf a (HQ w ks a Eo) _ _ _ _ _ Hin).
Qed.

Lemma sparing_bind {A B : Type} (m : M A) (f : A -> M B) :
  sparing current m -> (forall a, sparing current (f a)) -> sparing current (bind m f).
Proof. intros Hm Hf. apply (sparing_bind_with (fun _ => True)); auto. Qed.

Lemma sparing_try_catch {A : Type} (m : M A) (h : Error -> M A) :
  sparing current m -> (forall e, sparing current (h e)) ->
  sparing current (try_catch m h).
Proof.
  intros Hm Hh w ks flag b res Hin. rewrite trace_try_catch in Hin.
  apply in_app_or in Hin as [Hin|Hin]; [exact (Hm _ _ _ _ _ Hin)|].
  destruct (outcome (m w ks)) eqn:Eo; try contradiction.
  exact (Hh _ _ _ _ _ _ Hin).
Qed.

(** The deletion loop deletes what it is given, and hands back names
    it was given. *)
Lemma deleteWith_spec flag fallback l :
  forall w, exists succ fail w' t,
    (forall ks, Bd.deleteWith flag fallback l w ks = mkRun (Done (succ, fail)) w' ks t) /\
    incl succ l /\ incl (map Bd.name fail) l /\
    (forall e, In e t -> exists b res, In b l /\ e = Ran (branch_delete flag b) res).
Proof.
  induction l as [|b l IH]; intros w; cbn [Bd.deleteWith].
  - exists [], [], w, []. split; [reflexivity|].
    split; [apply incl_nil_l|]. split; [apply incl_nil_l|]. intros e [].
  - destruct (IH (snd (sh (SpawnSync "git" ["branch"; flag; b] Pipe) w)))
      as (succ & fail & w' & t & E & Hs & Hf & Ht).
    destruct (succeeded (fst (sh (SpawnSync "git" ["branch"; flag; b] Pipe) w))) eqn:Es.
    + exists (b :: succ), fail, w',
        (Ran (SpawnSync "git" ["branch"; flag; b] Pipe)
             (fst (sh (SpawnSync "git" ["branch"; flag; b] Pipe) w)) :: t).
      split; [|split; [|split]].
      * intros ks. go. rewrite E. go. rewrite Es. go. reflexivity.
      * intros x [<-|Hx]; [now left | right; auto].
      * intros x Hx. right. auto.
      * intros e [<-|He].
        -- exists b, (fst (sh (SpawnSync "git" ["branch"; flag; b] Pipe) w)).
           split; [now left | reflexivity].
        -- destruct (Ht e He) as (b' & res & Hb & ->). exists b', res.
           split; [now right | reflexivity].
    + exists succ,
        (Bd.mkFailure b
           (Bd.diagnosis (fst (sh (SpawnSync "git" ["branch"; flag; b] Pipe) w)) fallback)
         :: fail), w',
        (Ran (SpawnSync "git" ["branch"; flag; b] Pipe)
             (fst (sh (SpawnSync "git" ["branch"; flag; b] Pipe) w)) :: t).
      split; [|split; [|split]].
      * intros ks. go. rewrite E. go. rewrite Es. go. reflexivity.
      * intros x Hx. right. auto.
      * intros x [<-|Hx]; [now left | right; auto].
      * intros e [<-|He].
        -- exists b, (fst (sh (SpawnSync "git" ["branch"; flag; b] Pipe) w)).
           split; [now left | reflexivity].
        -- destruct (Ht e He) as (b' & res & Hb & ->). exists b', res.
           split; [now right | reflexivity].
Qed.

Lemma sparing_deleteWith flag fallback l :
  Forall (fun b => current <> Some b) l ->
  sparing current (Bd.deleteWith flag fallback l).
Proof.
  intros Hl w ks flag' b res Hin.
  destruct (deleteWith_spec flag fallback l w) as (succ & fail & w' & t & E & _ & _ & Ht).
  rewrite E in Hin. cbn [trace] in Hin.
  destruct (Ht _ Hin) as (b' & res' & Hb & Ee). injection Ee as _ <- _.
  rewrite Forall_forall in Hl. auto.
Qed.

Lemma deleteWith_failures flag fallback l w ks succ fail :
  outcome (Bd.deleteWith flag fallback l w ks) = Done (succ, fail) ->
  incl (map Bd.name fail) l.
Proof.
  destruct (deleteWith_spec flag fallback l w) as (succ' & fail' & w' & t & E & _ & Hf & _).
  rewrite E. cbn [outcome]. intros H. injection H as <- <-. exact Hf.
Qed.

Lemma deletable_spares (cur : option string) branches :
  Forall (fun b => cur <> Some b) (Bd.deletable cur branches).
Proof.
  apply Forall_forall. intros b Hb. unfold Bd.deletable in Hb.
  apply filter_In in Hb as (_ & Hb). destruct cur as [c|]; [|discriminate].
  intros E. injection E as ->. rewrite String.eqb_refl in Hb. discriminate Hb.
Qed.

Lemma expandSelection_incl all selected :
  incl selected (Bd.ALL :: all) -> incl (Bd.expandSelection all selected) all.
Proof.
  intros H. unfold Bd.expandSelection. destruct (Js.mem Bd.ALL selected).
  - apply incl_refl.
  - intros x Hx. apply filter_In in Hx as (Hx & Hn).
    destruct (H x Hx) as [<-|Hin]; [|exact Hin].
    rewrite String.eqb_refl in Hn. discriminate Hn.
Qed.

Lemma branchChoices_names head items :
  map choice_name (Bd.branchChoices head items) = Bd.ALL :: items.
Proof.
  assert (Hn : forall b, choice_name (choice b b) = b).
  { intros b. unfold choice_name, choice. cbn [name message].
    unfold Js.or_else. destruct (Js.truthy b); reflexivity. }
  unfold Bd.branchChoices. cbn [map].
  change (choice_name (choice Bd.ALL head)) with Bd.ALL. f_equal.
  induction items as [|b items IH]; cbn [map]; [reflexivity|].
  now rewrite Hn, IH.
Qed.

(** What the list prompt hands back are names of its entries. *)
Lemma multiSelect_names msg cs w ks selected :
  outcome (multiSelect msg cs w ks) = Done selected ->
  incl selected (map choice_name cs).
Proof.
  unfold multiSelect. destruct (selectable cs); [|discriminate].
  unfold answer. destruct ks as [|k ks]; [discriminate|].
  destruct k; cbn; try discriminate; intros H; injection H as <-.
  - intros x Hx. exact (ticked_in _ _ _ _ Hx).
  - apply incl_nil_l.
Qed.

Lemma orCancel_names said msg cs w ks selected :
  outcome (Bd.orCancel said (multiSelect msg cs) w ks) = Done selected ->
  incl selected (map choice_name cs).
Proof.
  unfold Bd.orCancel. rewrite try_catch_recover.
  pose proof (multiSelect_names msg cs w ks) as H.
  destruct (multiSelect msg cs w ks) as [o w' ks' t]. cbn [outcome] in H.
  destruct o as [a| |e| |]; cbn; try discriminate.
  - intros E. injection E as <-. now apply H.
  - destruct e; cbn; discriminate.
Qed.

Lemma bd_run_keeps cmd : only keeps_branches (Bd.run cmd).
Proof. unfold Bd.run. only_tac. Qed.

#[local] Hint Resolve bd_run_keeps : flows.

Lemma bd_getLocalBranches_keeps : only keeps_branches Bd.getLocalBranches.
Proof. unfold Bd.getLocalBranches. only_tac. Qed.

Lemma bd_getRemoteBranches_keeps : only keeps_branches Bd.getRemoteBranches.
Proof. unfold Bd.getRemoteBranches. only_tac. Qed.

Lemma bd_deleteRemoteBranches_keeps l : only keeps_branches (Bd.deleteRemoteBranches l).
Proof.
  induction l as [|ref l IH]; cbn [Bd.deleteRemoteBranches]; [apply only_ret|].
  destruct (Bd.splitRemote ref) as [[remote branch]|].
  - apply only_bind; [only_tac | intros r].
    apply only_bind; [exact IH | intros [succ fail]]. only_tac.
  - apply only_bind; [exact IH | intros [succ fail]]. only_tac.
Qed.

Lemma bd_report_keeps head mark l : only keeps_branches (Bd.report head mark l).
Proof. unfold Bd.report. only_tac. Qed.

Lemma bd_reportFailures_keeps head l : only keeps_branches (Bd.reportFailures head l).
Proof. unfold Bd.reportFailures. only_tac. Qed.

#[local] Hint Resolve bd_getLocalBranches_keeps bd_getRemoteBranches_keeps
  bd_deleteRemoteBranches_keeps bd_report_keeps bd_reportFailures_keeps : flows.

Lemma bd_orCancel_keeps {A : Type} said (m : M A) :
  only keeps_branches m -> only keeps_branches (Bd.orCancel said m).
Proof. intros Hm. unfold Bd.orCancel. apply only_try_catch; [exact Hm|]. intros e. only_tac. Qed.

Lemma bd_deleteRemotes_keeps deletedLocal : only keeps_branches (Bd.deleteRemotes deletedLocal).
Proof.
  unfold Bd.deleteRemotes.
  apply only_bind; [only_tac | intros askRemote].
  destruct (negb askRemote); [only_tac|].
  apply only_bind; [only_tac | intros remoteRefs]. cbv zeta.
  destruct (Js.uniq _); [only_tac|].
  apply only_bind; [apply bd_orCancel_keeps; only_tac | intros remoteSelected].
  destruct (Bd.expandSelection _ _); only_tac.
Qed.

(** With [current] read and the branches listed, what [Bd.main] goes on
    to do deletes no branch named [current]. *)
Lemma sparing_from_branches branches :
  sparing current
    (let localBranches := Bd.deletable current branches in
     match localBranches with
     | [] => console_log "没有可删除的本地分支（除了当前分支）。" ;; exit 0
     | _ =>
         selected <-
           Bd.orCancel Bd.CANCELLED
             (multiSelect
                ("请选择要删除的本地分支（当前分支：" ++ Bd.shown current ++
                 "，不能删除当前分支）。按空格选择，回车确认，Ctrl+C 取消：")
                (Bd.branchChoices "🔘 全选（选择此项代表选择所有分支）" localBranches)) ;;
         let selected := Bd.expandSelection localBranches selected in
         match selected with
         | [] => console_log "未选择任何分支，已取消。" ;; exit 0
         | _ =>
             console_log "即将删除以下本地分支：" ;;
             for_each selected (fun b => console_log (" -" ++ " " ++ b)) ;;
             c1 <- confirm "确认要删除上述本地分支吗？（这会尝试安全删除：git branch -d，Ctrl+C 可取消）"
                           true ;;
             if negb c1 then console_log "取消删除。" ;; exit 0
             else
               res <- Bd.deleteLocalBranches selected ;;
               let '(succ, fail) := res in
               Bd.report (Js.nl ++ "已成功删除（本地）：") " ✅" succ ;;
               succ2 <-
                 match fail with
                 | [] => ret []
                 | _ =>
                     console_log (Js.nl ++ "无法安全删除（可能未合并或有未保存更改）：") ;;
                     for_each fail (fun f => console_log (Bd.failed_line f)) ;;
                     force <- confirm "是否对上述失败的分支执行强制删除 (git branch -D)？（Ctrl+C 可取消）"
                                      false ;;
                     if force then
                       res2 <- Bd.forceDeleteLocalBranches (map Bd.name fail) ;;
                       let '(succ2, fail2) := res2 in
                       Bd.report (Js.nl ++ "强制删除成功：") " ✅" succ2 ;;
                       Bd.reportFailures (Js.nl ++ "强制删除失败：") fail2 ;;
                       ret succ2
                     else ret []
                 end ;;
               let deletedLocal := (succ ++ succ2)%list in
               match deletedLocal with
               | [] => console_log (Js.nl ++ "没有本地分支被删除，跳过远程删除。") ;; exit 0
               | _ => Bd.deleteRemotes deletedLocal
               end
         end
     end).
Proof.
  cbv zeta. pose proof (deletable_spares current branches) as Hl.
  destruct (Bd.deletable current branches) as [|b0 l0] eqn:El.
  { apply sparing_only. only_tac. }
  rewrite <- El in *. clear El b0 l0.
  apply (sparing_bind_with
           (fun selected => incl selected (Bd.ALL :: Bd.deletable current branches))).
  { apply sparing_only. apply bd_orCancel_keeps. only_tac. }
  { intros w ks a Ho. rewrite <- (branchChoices_names "🔘 全选（选择此项代表选择所有分支）").
    exact (orCancel_names _ _ _ _ _ _ Ho). }
  intros selected Hsel. apply expandSelection_incl in Hsel.
  assert (Hs : Forall (fun b => current <> Some b)
                 (Bd.expandSelection (Bd.deletable current branches) selected)).
  { rewrite Forall_forall in *. auto. }
  destruct (Bd.expandSelection (Bd.deletable current branches) selected)
    as [|s0 sl] eqn:Ee.
  { apply sparing_only. only_tac. }
  rewrite <- Ee in *. clear Ee s0 sl.
  apply sparing_bind; [apply sparing_only; only_tac | intros _].
  apply sparing_bind; [apply sparing_only; only_tac | intros _].
  apply sparing_bind; [apply sparing_only; only_tac | intros c1].
  destruct (negb c1); [apply sparing_only; only_tac|].
  apply (sparing_bind_with
           (fun res => incl (map Bd.name (snd res))
                         (Bd.expandSelection (Bd.deletable current branches) selected))).
  { apply sparing_deleteWith. exact Hs. }
  { intros w ks [succ fail] Ho. exact (deleteWith_failures _ _ _ _ _ _ _ Ho). }
  intros [succ fail] Hf. cbn [snd] in Hf.
  apply sparing_bind; [apply sparing_only; only_tac | intros _].
  apply sparing_bind.
  - destruct fail as [|f0 fl] eqn:Ef; [apply sparing_only; only_tac|].
    rewrite <- Ef in *. clear Ef f0 fl.
    apply sparing_bind; [apply sparing_only; only_tac | intros _].
    apply sparing_bind; [apply sparing_only; only_tac | intros _].
    apply sparing_bind; [apply sparing_only; only_tac | intros force].
    destruct force; [|apply sparing_only; only_tac].
    apply sparing_bind.
    + apply sparing_deleteWith. rewrite Forall_forall in *. auto.
    + intros [succ2 fail2]. apply sparing_only. only_tac.
  - intros succ2. cbv zeta. destruct (succ ++ succ2)%list.
    + apply sparing_only. only_tac.
    + apply sparing_only. apply bd_deleteRemotes_keeps.
Qed.

End Sparing.

Section NeverCurrent.
Context {SH : Shell}.

#[local] Hint Resolve bd_run_keeps : flows.

Lemma bd_run_eq cmd w ks :
  Bd.run cmd w ks =
  mkRun (if succeeded (fst (sh (ExecSync cmd) w))
         then Done (Js.trim (stdout (fst (sh (ExecSync cmd) w))))
         else Thrown (ECommand cmd (fst (sh (ExecSync cmd) w))))
        (snd (sh (ExecSync cmd) w)) ks
        [Ran (ExecSync cmd) (fst (sh (ExecSync cmd) w))].
Proof.
  unfold Bd.run, execSync. go.
  destruct (succeeded (fst (sh (ExecSync cmd) w))); go; reflexivity.
Qed.

Lemma bd_getCurrentBranch_eq w ks :
  Bd.getCurrentBranch w ks =
  mkRun (Done (answered (fst (sh BD_CURRENT w)))) (snd (sh BD_CURRENT w)) ks
        [Ran BD_CURRENT (fst (sh BD_CURRENT w))].
Proof.
  unfold Bd.getCurrentBranch, answered, BD_CURRENT. go. rewrite bd_run_eq.
  destruct (succeeded _); go; reflexivity.
Qed.

(** A run of [m] that deletes a branch has asked for the current
    branch, and was answered another name. *)
Lemma asks_bind {A B : Type} (m : M A) (f : A -> M B) :
  only keeps_branches m ->
  (forall a w ks flag b res,
     In (Ran (branch_delete flag b) res) (trace (f a w ks)) ->
     exists q, In (Ran BD_CURRENT q) (trace (f a w ks)) /\ answered q <> Some b) ->
  forall w ks flag b res,
    In (Ran (branch_delete flag b) res) (trace (bind m f w ks)) ->
    exists q, In (Ran BD_CURRENT q) (trace (bind m f w ks)) /\ answered q <> Some b.
Proof.
  intros Hm Hf w ks flag b res. rewrite trace_bind. intros Hin.
  apply in_app_or in Hin as [Hin|Hin].
  { exfalso. specialize (Hm w ks). rewrite forallb_forall in Hm.
    specialize (Hm _ Hin). discriminate Hm. }
  destruct (outcome (m w ks)) as [a| | | |]; try contradiction.
  destruct (Hf _ _ _ _ _ _ Hin) as (q & Hq & Ha).
  exists q. split; [apply in_or_app; now right | exact Ha].
Qed.

Lemma asks_current {B : Type} (f : option string -> M B) :
  (forall current, sparing current (f current)) ->
  forall w ks flag b res,
    In (Ran (branch_delete flag b) res) (trace (bind Bd.getCurrentBranch f w ks)) ->
    exists q, In (Ran BD_CURRENT q) (trace (bind Bd.getCurrentBranch f w ks)) /\
              answered q <> Some b.
Proof.
  intros Hf w ks flag b res. rewrite trace_bind, bd_getCurrentBranch_eq.
  rewrite outcome_run, world_run, keys_run, trace_run. intros Hin.
  exists (fst (sh BD_CURRENT w)). split; [now left|].
  destruct Hin as [Hin|Hin]; [discriminate Hin|].
  exact (Hf _ _ _ _ _ _ Hin).
Qed.

Lemma asks_try_catch {A : Type} (m : M A) (h : Error -> M A) :
  (forall w ks flag b res,
     In (Ran (branch_delete flag b) res) (trace (m w ks)) ->
     exists q, In (Ran BD_CURRENT q) (trace (m w ks)) /\ answered q <> Some b) ->
  (forall e, only keeps_branches (h e)) ->
  forall w ks flag b res,
    In (Ran (branch_delete flag b) res) (trace (try_catch m h w ks)) ->
    exists q, In (Ran BD_CURRENT q) (trace (try_catch m h w ks)) /\ answered q <> Some b.
Proof.
  intros Hm Hh w ks flag b res. rewrite trace_try_catch. intros Hin.
  apply in_app_or in Hin as [Hin|Hin].
  - destruct (Hm _ _ _ _ _ Hin) as (q & Hq & Ha).
    exists q. split; [apply in_or_app; now left | exact Ha].
  - exfalso. destruct (outcome (m w ks)) as [a| |e| |]; try contradiction.
    specialize (Hh e (world (m w ks)) (keys (m w ks))).
    rewrite forallb_forall in Hh. specialize (Hh _ Hin). discriminate Hh.
Qed.

Lemma main_asks w ks flag b res :
  In (Ran (branch_delete flag b) res) (trace (Bd.main w ks)) ->
  exists q, In (Ran BD_CURRENT q) (trace (Bd.main w ks)) /\ answered q <> Some b.
Proof.
  revert w ks flag b res. unfold Bd.main.
  apply asks_bind; [only_tac | intros _].
  apply asks_current. intros current.
  apply sparing_bind;
    [apply sparing_only; exact bd_getLocalBranches_keeps | intros branches].
  exact (sparing_from_branches current branches).
Qed.

(** C10.  Whatever the operator selects, "select all" included: when a
    run of the branch-deletion tool issues [git branch -d b] or
    [git branch -D b] (or [git branch] with any other flag), the tool
    has asked git for the current branch in that run, and [b] is not
    the name git answered. *)
Theorem current_branch_is_never_deleted w ks flag b res :
  In (Ran (branch_delete flag b) res) (trace (Bd.script w ks)) ->
  exists q,
    In (Ran BD_CURRENT q) (trace (Bd.script w ks)) /\
    answered q <> Some b.
Proof.
  revert w ks flag b res. unfold Bd.script.
  apply asks_try_catch; [exact main_asks | intros e; only_tac].
Qed.

End NeverCurrent.

Lemma current_branch_is_never_deleted_witness :
  exists q,
    In (Ran BD_CURRENT q)
       (trace (Bd.script (SH := sandbox) tt [Toggle [0]; YesNo true; YesNo false])) /\
    answered q <> Some "feature".
Proof.
  apply (current_branch_is_never_deleted (SH := sandbox) tt
           [Toggle [0]; YesNo true; YesNo false] "-d" "feature" (ok EmptyString)).
  vm_compute. repeat (first [left; reflexivity | right]).
Defined.
